(** * x112v4l2: ffmpeg command compilation and the Gtk widget finder

    A shallow embedding of [x112v4l2/ffmpeg.py] and [x112v4l2/gtk/utils.py],
    followed by the properties of the command compiler, the capture
    launchers, the version query and the breadth-first widget search.

    Python values are modelled as the code uses them: integers are [Z]
    (unbounded), floats are IEEE-754 binary64 values ([spec_float] at
    precision 53 and maximal exponent 1024, with the operations of the
    standard library's [SpecFloat]), exceptions are an explicit error
    result, and strings are [string]. *)

From Stdlib Require Import ZArith Bool List String Ascii Lia.
From Stdlib Require Import Numbers.DecimalString.
From Stdlib Require Import Floats.SpecFloat.
From Stdlib Require Import QArith Qpower Lqa.
Import ListNotations.

Local Open Scope string_scope.
Local Open Scope list_scope.
Local Open Scope Z_scope.

(** ** The fragment of the Python runtime the two modules rely on *)

Module Py.

(** The exceptions the modelled code can raise. *)
Inductive exn : Type :=
| ZeroDivisionError
| OverflowError
| ValueError
| IndexError.

(** A computation either returns a value or raises. *)
Inductive result (A : Type) : Type :=
| Ok (a : A)
| Raise (e : exn).
Arguments Ok {A} a.
Arguments Raise {A} e.

Definition bind {A B : Type} (r : result A) (k : A -> result B) : result B :=
  match r with
  | Ok a => k a
  | Raise e => Raise e
  end.

(** *** Floats: IEEE-754 binary64 *)

Definition prec : Z := 53.
Definition emax : Z := 1024.

Definition float : Type := spec_float.

Definition float_is_zero (f : float) : bool :=
  match f with
  | S754_zero _ => true
  | _ => false
  end.

(** The integer [z], as an unrounded binary number. *)
Definition exact_of_int (z : Z) : float :=
  match z with
  | Z0 => S754_zero false
  | Zpos p => S754_finite false p 0
  | Zneg p => S754_finite true p 0
  end.

(** [float(z)]: round to nearest, ties to even; an integer beyond the
    range of binary64 raises [OverflowError]. *)
Definition float_of_int (z : Z) : result float :=
  match binary_normalize prec emax z 0 false with
  | S754_infinity _ => Raise OverflowError
  | f => Ok f
  end.

(** [a / b] on two integers: the correctly rounded quotient of the exact
    integers (CPython's [long_true_divide]). *)
Definition int_truediv (a b : Z) : result float :=
  if b =? 0 then Raise ZeroDivisionError
  else
    match SFdiv prec emax (exact_of_int a) (exact_of_int b) with
    | S754_infinity _ => Raise OverflowError
    | f => Ok f
    end.

(** [x / y] on two floats: only a zero divisor raises. *)
Definition float_truediv (x y : float) : result float :=
  if float_is_zero y then Raise ZeroDivisionError
  else Ok (SFdiv prec emax x y).

Definition float_mul (x y : float) : float := SFmul prec emax x y.

(** [x != y] on floats. *)
Definition float_ne (x y : float) : bool := negb (SFeqb x y).

(** The exact comparison of a float with an integer, as CPython's
    mixed comparison does it; [None] when the float is a NaN. *)
Definition float_compare_int (f : float) (z : Z) : option comparison :=
  match f with
  | S754_nan => None
  | S754_infinity s => Some (if s then Lt else Gt)
  | S754_zero _ => Some (0 ?= z)
  | S754_finite s m e =>
      let sm := if s then Zneg m else Zpos m in
      Some (if 0 <=? e then (sm * 2 ^ e ?= z) else (sm ?= z * 2 ^ (- e)))
  end.

(** [int(f)]: truncation towards zero. *)
Definition int_of_float (f : float) : result Z :=
  match f with
  | S754_nan => Raise ValueError
  | S754_infinity _ => Raise OverflowError
  | S754_zero _ => Ok 0
  | S754_finite s m e =>
      let a := if 0 <=? e then Zpos m * 2 ^ e else Zpos m / 2 ^ (- e) in
      Ok (if s then - a else a)
  end.

(** [math.ceil(f)]. *)
Definition ceil_of_float (f : float) : result Z :=
  match f with
  | S754_nan => Raise ValueError
  | S754_infinity _ => Raise OverflowError
  | S754_zero _ => Ok 0
  | S754_finite s m e =>
      let sm := if s then Zneg m else Zpos m in
      Ok (if 0 <=? e then sm * 2 ^ e else - ((- sm) / 2 ^ (- e)))
  end.

(** *** Numbers: an [int] or a [float] *)

Inductive num : Type :=
| Int (z : Z)
| Float (f : float).

(** Truth value of a number: zero is false. *)
Definition num_truthy (n : num) : bool :=
  match n with
  | Int z => negb (z =? 0)
  | Float f => negb (float_is_zero f)
  end.

(** Truth value of an optional argument: [None] is false. *)
Definition truthy (o : option num) : bool :=
  match o with
  | None => false
  | Some n => num_truthy n
  end.

Definition int_truthy (o : option Z) : bool :=
  match o with
  | None => false
  | Some z => negb (z =? 0)
  end.

(** [int(n)]. *)
Definition int (n : num) : result Z :=
  match n with
  | Int z => Ok z
  | Float f => int_of_float f
  end.

(** [math.ceil(n)]. *)
Definition ceil (n : num) : result Z :=
  match n with
  | Int z => Ok z
  | Float f => ceil_of_float f
  end.

Definition to_float (n : num) : result float :=
  match n with
  | Int z => float_of_int z
  | Float f => Ok f
  end.

(** [a / b]. *)
Definition truediv (a b : num) : result float :=
  match a, b with
  | Int x, Int y => int_truediv x y
  | _, _ =>
      bind (to_float a) (fun x =>
      bind (to_float b) (fun y => float_truediv x y))
  end.

(** [a * b]. *)
Definition mul (a b : num) : result num :=
  match a, b with
  | Int x, Int y => Ok (Int (x * y))
  | _, _ =>
      bind (to_float a) (fun x =>
      bind (to_float b) (fun y => Ok (Float (float_mul x y))))
  end.

(** [n > z] for an integer [z]. *)
Definition gt_int (n : num) (z : Z) : bool :=
  match n with
  | Int x => z <? x
  | Float f =>
      match float_compare_int f z with
      | Some Gt => true
      | _ => false
      end
  end.

(** [str(z)] for an integer. *)
Definition str (z : Z) : string := NilZero.string_of_int (Z.to_int z).

(** [s.split(sep)] for a one-character separator: every occurrence of
    the separator cuts, so the result is never empty. *)
Fixpoint split (sep : ascii) (s : string) : list string :=
  match s with
  | EmptyString => [EmptyString]
  | String c rest =>
      if Ascii.eqb c sep then EmptyString :: split sep rest
      else
        match split sep rest with
        | w :: ws => String c w :: ws
        | [] => [String c EmptyString]
        end
  end.

(** [l[i]] for a non-negative index. *)
Definition index {A : Type} (l : list A) (i : nat) : result A :=
  match nth_error l i with
  | Some a => Ok a
  | None => Raise IndexError
  end.

(** [sep.join(l)]. *)
Definition join (sep : string) (l : list string) : string :=
  String.concat sep l.

End Py.

Notation "x <- c1 ;; c2" := (Py.bind c1 (fun x => c2))
  (at level 61, c1 at next level, right associativity).

(** ** [x112v4l2/ffmpeg.py] *)

Module Ffmpeg.
Import Py.

(** The child process of [get_version], as far as the function looks at
    it: the status [proc.wait()] returns and the first line
    [proc.stdout.readline()] yields, decoded. *)
Record Process : Type := {
  wait : Z;
  stdout_readline : string
}.

(** [get_version()], run against the outcome of [ffmpeg -version]. *)
Definition get_version (proc : Process) : result (option string) :=
  if negb (wait proc =? 0) then Ok None
  else
    (* Try to parse out the version number from the first line *)
    let words := split " "%char (stdout_readline proc) in
    w1 <- index words 1 ;;
    if String.eqb w1 "version" then
      w2 <- index words 2 ;;
      Ok (Some w2)
    else
      (* Uhh, dunno *)
      Ok (Some "<Unknown>").

(** [source_screen] is an X11 Screen instance (of which only [full_id] is
    read) or the string full ID of a screen. *)
Inductive Screen : Type :=
| ScreenInstance (full_id : string)
| ScreenId (id : string).

(** [getattr(source_screen, 'full_id', source_screen)] *)
Definition screen_full_id (s : Screen) : string :=
  match s with
  | ScreenInstance full_id => full_id
  | ScreenId id => id
  end.

(** The arguments of [compile_command].  The geometry and the frame rate
    are integers (on which [int()] is the identity); the output
    dimensions are optional and may be floats, as [screenshot] computes
    them by true division. *)
Record Args : Type := {
  source_screen : Screen;
  source_x : Z;
  source_y : Z;
  source_width : Z;
  source_height : Z;
  output_filename : string;
  output_width : option num;
  output_height : option num;
  fps : Z;
  scale : bool;
  maintain_aspect : bool;
  loglevel : string
}.

(** The default values of the keyword arguments. *)
Definition default_output_width : option num := None.
Definition default_output_height : option num := None.
Definition default_fps : Z := 0.
Definition default_scale : bool := true.
Definition default_maintain_aspect : bool := true.
Definition default_loglevel : string := "error".

(** Validation/defaulting of one output dimension:
    [if not output: output = source], then [int(output)]. *)
Definition defaulted (output : option num) (source : Z) : result Z :=
  if negb (truthy output) then Ok source
  else
    match output with
    | Some n => int n
    | None => Ok source
    end.

Definition input_args (a : Args) : list string :=
  [ "ffmpeg";
    "-loglevel"; loglevel a;
    (* Input options *)
    "-f"; "x11grab";
    (* NB. High framerate for screenshots, so we're not left waiting *)
    "-framerate"; str (if negb (fps a =? 0)%Z then fps a else 120%Z);
    "-s"; str (source_width a) ++ "x" ++ str (source_height a);
    "-i"; screen_full_id (source_screen a) ++ "+" ++ str (source_x a)
            ++ "," ++ str (source_y a) ]%string.

Definition stretch_filter (w h : Z) : string :=
  ("scale=width=" ++ str w ++ ":height=" ++ str h)%string.

Definition scale_filter (w h : Z) : string :=
  ("scale=width=" ++ str w ++ ":height=" ++ str h
     ++ ":force_original_aspect_ratio=decrease")%string.

Definition pad_filter (w h : Z) : string :=
  ("pad=width=" ++ str w ++ ":height=" ++ str h
     ++ ":x=(ow-iw)/2:y=(oh-ih)/2")%string.

(** Filters (eg. scaling, letterboxing, etc.): the list [filter_args]
    before it is joined. *)
Definition filters (a : Args) (ow oh : Z) : result (list string) :=
  if negb (ow =? source_width a) || negb (oh =? source_height a) then
    if scale a && negb (maintain_aspect a) then
      (* Stretch to fit *)
      Ok [stretch_filter ow oh]
    else
      let scaled :=
        if scale a && negb (ow =? source_width a)
           && negb (oh =? source_height a)
        then [scale_filter ow oh] (* Scale the video *)
        else [] in
      source_aspect <- int_truediv (source_width a) (source_height a) ;;
      output_aspect <- int_truediv ow oh ;;
      if negb (scale a) || float_ne source_aspect output_aspect then
        (* Apply padding *)
        Ok (scaled ++ [pad_filter ow oh])
      else Ok scaled
  else Ok [].

(** [if filter_args: filter_args = ['-vf', ', '.join(filter_args)]] *)
Definition filter_args (fs : list string) : list string :=
  match fs with
  | [] => []
  | _ :: _ => ["-vf"; join ", " fs]
  end.

Definition output_args (a : Args) : list string :=
  if fps a =? 0 then
    (* One-time screenshot *)
    [ "-vframes"; "1";
      "-y";
      output_filename a ]
  else
    (* Persistent stream *)
    [ "-vcodec"; "rawvideo";
      "-pix_fmt"; "yuv420p";
      "-threads"; "0";
      "-f"; "v4l2";
      output_filename a ].

(** [compile_command(...)]: the command tokens, or the exception raised
    on the way. *)
Definition compile_command (a : Args) : result (list string) :=
  ow <- defaulted (output_width a) (source_width a) ;;
  oh <- defaulted (output_height a) (source_height a) ;;
  fs <- filters a ow oh ;;
  Ok (input_args a ++ filter_args fs ++ output_args a).

(** A geometry: the dict-like object with [x], [y], [width], [height]. *)
Record Geometry : Type := {
  x : Z;
  y : Z;
  width : Z;
  height : Z
}.

(** The output size [screenshot] computes before it compiles: "Scale the
    output to fit the desired size". *)
Definition screenshot_size (geometry : Geometry)
    (max_width max_height : option Z) : result (num * num) :=
  let output_width := Int (width geometry) in
  let output_height := Int (height geometry) in
  source_aspect <- int_truediv (width geometry) (height geometry) ;;
  size1 <-
    match max_width with
    | Some mw =>
        if negb (mw =? 0) && gt_int output_width mw then
          h <- truediv (Int mw) (Float source_aspect) ;;
          Ok (Int mw, Float h)
        else Ok (output_width, output_height)
    | None => Ok (output_width, output_height)
    end ;;
  match max_height with
  | Some mh =>
      if negb (mh =? 0) && gt_int (snd size1) mh then
        w <- mul (Int mh) (Float source_aspect) ;;
        Ok (w, Int mh)
      else Ok size1
  | None => Ok size1
  end.

(** The call of [compile_command] that [screenshot] makes. *)
Definition screenshot_args (screen_id : string) (geometry : Geometry)
    (filename : string) (max_width max_height : option Z) : result Args :=
  size <- screenshot_size geometry max_width max_height ;;
  Ok {| source_screen := ScreenId screen_id;
        source_x := x geometry;
        source_y := y geometry;
        source_width := width geometry;
        source_height := height geometry;
        output_filename := filename;
        output_width := Some (fst size);
        output_height := Some (snd size);
        fps := 0;
        scale := default_scale;
        maintain_aspect := false;
        loglevel := default_loglevel |}.

(** [screenshot(...)], up to the command line handed to
    [subprocess.Popen]. *)
Definition screenshot (screen_id : string) (geometry : Geometry)
    (filename : string) (max_width max_height : option Z)
    : result (list string) :=
  a <- screenshot_args screen_id geometry filename max_width max_height ;;
  compile_command a.

(** "Output video dimensions should be multiples of 2":
    [math.ceil(d / 2) * 2]. *)
Definition even_dimension (d : Z) : result Z :=
  half <- int_truediv d 2 ;;
  c <- ceil (Float half) ;;
  Ok (c * 2).

(** The call of [compile_command] that [stream] makes. *)
Definition stream_args (screen_id : string) (geometry : Geometry)
    (fps : Z) (filename : string) : result Args :=
  ow <- even_dimension (width geometry) ;;
  oh <- even_dimension (height geometry) ;;
  Ok {| source_screen := ScreenId screen_id;
        source_x := x geometry;
        source_y := y geometry;
        source_width := width geometry;
        source_height := height geometry;
        output_filename := filename;
        output_width := Some (Int ow);
        output_height := Some (Int oh);
        fps := fps;
        scale := default_scale;
        maintain_aspect := true;
        loglevel := default_loglevel |}.

(** [stream(...)], up to the command line handed to [subprocess.Popen]. *)
Definition stream (screen_id : string) (geometry : Geometry)
    (fps : Z) (filename : string) : result (list string) :=
  a <- stream_args screen_id geometry fps filename ;;
  compile_command a.

(** An X window, as far as the two window launchers look at it: the
    [full_id] of [window.screen] and the geometry
    [window.get_abs_geometry()] returns. *)
Record XScreen : Type := {
  full_id : string
}.

Record Window : Type := {
  screen : XScreen;
  get_abs_geometry : Geometry
}.

(** [capture_window(window, filename, **kwargs)]: the keyword arguments
    are handed on to [screenshot], which takes [max_width] and
    [max_height] besides the three set here; one that is not given is
    [None]. *)
Definition capture_window (window : Window) (filename : string)
    (max_width max_height : option Z) : result (list string) :=
  screenshot (full_id (screen window)) (get_abs_geometry window) filename
    max_width max_height.

(** [stream_window(window, fps, filename)] *)
Definition stream_window (window : Window) (fps : Z) (filename : string)
    : result (list string) :=
  stream (full_id (screen window)) (get_abs_geometry window) fps filename.

End Ffmpeg.

(** ** [x112v4l2/gtk/utils.py] *)

Module GtkUtils.

Local Set Warnings "-register-all".

(** A Gtk widget, as far as the search looks at it: its name, and its
    children when it has a [get_children] method ([None] when
    [hasattr(child, 'get_children')] is false). *)
Inductive Widget : Type :=
| mkWidget (name : string) (children : option (list Widget)).

Definition get_name (w : Widget) : string :=
  match w with
  | mkWidget name _ => name
  end.

Definition get_children (w : Widget) : option (list Widget) :=
  match w with
  | mkWidget _ children => children
  end.

(** The state of the search: the widgets whose name has been read so
    far, in the order of the [get_name()] calls, and the level under
    construction. *)
Record State : Type := {
  visited : list Widget;
  next_level : list Widget
}.

(** [for child in children: ...]: the widget returned from inside the
    loop, or the state when the loop runs to its end. *)
Fixpoint for_children (name : string) (children : list Widget) (st : State)
    : list Widget * option Widget + State :=
  match children with
  | [] => inr st
  | child :: rest =>
      let seen := visited st ++ [child] in
      if String.eqb (get_name child) name then
        (* Bingo *)
        inl (seen, Some child)
      else
        for_children name rest
          {| visited := seen;
             next_level :=
               match get_children child with
               | Some cs => next_level st ++ cs
               | None => next_level st
               end |}
  end.

(** [while next_level: ...], with a bound on the number of iterations;
    [None] when the bound is reached. *)
Fixpoint while_next_level (fuel : nat) (name : string) (st : State)
    : option (list Widget * option Widget) :=
  match next_level st with
  | [] =>
      (* Hierarchy exhausted. Ho hum. *)
      Some (visited st, None)
  | _ :: _ =>
      match fuel with
      | O => None
      | S fuel' =>
          let children := next_level st in
          match for_children name children
                  {| visited := visited st; next_level := [] |} with
          | inl found => Some found
          | inr st' => while_next_level fuel' name st'
          end
      end
  end.

(** [find_child_by_id(root, name)]: the widgets visited, in order, and
    the widget returned ([None] for Python's [None]). *)
Definition find_child_by_id (fuel : nat) (root : Widget) (name : string)
    : option (list Widget * option Widget) :=
  while_next_level fuel name {| visited := []; next_level := [root] |}.

(** *** The breadth-first order, as the specification words it *)

(** The children of a node; a node without a child-listing capability is
    a leaf. *)
Definition child_nodes (w : Widget) : list Widget :=
  match get_children w with
  | Some cs => cs
  | None => []
  end.

(** The nodes at depth [d] below [w], in left-to-right child order. *)
Fixpoint nodes_at_depth (d : nat) (w : Widget) : list Widget :=
  match d with
  | O => [w]
  | S d' => flat_map (nodes_at_depth d') (child_nodes w)
  end.

(** The number of levels below the root. *)
Fixpoint height (w : Widget) : nat :=
  match w with
  | mkWidget _ None => O
  | mkWidget _ (Some cs) => S (list_max (map height cs))
  end.

(** All nodes at depth [d] before any node at depth [d + 1], starting
    with the root itself. *)
Definition breadth_first_order (root : Widget) : list Widget :=
  flat_map (fun d => nodes_at_depth d root) (seq 0 (S (height root))).

Definition matches (name : string) (w : Widget) : bool :=
  String.eqb (get_name w) name.

(** The part of an order a search visits: up to and including the first
    match. *)
Fixpoint up_to_first (p : Widget -> bool) (l : list Widget) : list Widget :=
  match l with
  | [] => []
  | w :: l' => w :: (if p w then [] else up_to_first p l')
  end.

End GtkUtils.

(** ** Shapes of the tokens the compiler writes itself *)

Module Tokens.

Definition is_digit (c : ascii) : bool :=
  let n := nat_of_ascii c in (48 <=? n)%nat && (n <=? 57)%nat.

(** A token that starts like a decimal number or like the source size
    ([-] may only be followed by a digit or, in a size, by [x]). *)
Definition numeric_prefix (s : string) : bool :=
  match s with
  | EmptyString => false
  | String c r =>
      is_digit c
      || (Ascii.eqb c "-"
          && match r with
             | EmptyString => true
             | String d _ => is_digit d || Ascii.eqb d "x"
             end)
  end.

Fixpoint has_char (c : ascii) (s : string) : bool :=
  match s with
  | EmptyString => false
  | String d r => Ascii.eqb d c || has_char c r
  end.

(** A token that starts like one of the three filters. *)
Definition filter_head (s : string) : bool :=
  match s with
  | EmptyString => false
  | String c _ => Ascii.eqb c "s" || Ascii.eqb c "p"
  end.

(** The tokens that are written by the compiler and depend on its numeric
    arguments or on the screen. *)
Definition computed (t : string) : bool :=
  numeric_prefix t || has_char "+" t || filter_head t.

(** The literal tokens of the input options and of the filter option. *)
Definition input_literals : list string :=
  ["ffmpeg"; "-loglevel"; "-f"; "x11grab"; "-framerate"; "-s"; "-i"; "-vf"].

(** The literal tokens of the two output clauses. *)
Definition screenshot_literals : list string := ["-vframes"; "1"; "-y"].

Definition stream_literals : list string :=
  ["-vcodec"; "rawvideo"; "-pix_fmt"; "yuv420p"; "-threads"; "0"; "-f"; "v4l2"].

End Tokens.

(** ** Requests used as examples, and argument updates *)

Module Examples.
Import Py Ffmpeg.

(** [compile_command(':0.0', 0, 0, 640, 480, 'out.png')] with every
    keyword argument at its default. *)
Definition still_request : Args :=
  {| source_screen := ScreenId ":0.0";
     source_x := 0; source_y := 0;
     source_width := 640; source_height := 480;
     output_filename := "out.png";
     output_width := default_output_width;
     output_height := default_output_height;
     fps := default_fps;
     scale := default_scale;
     maintain_aspect := default_maintain_aspect;
     loglevel := default_loglevel |}.

Definition with_output_filename (a : Args) (filename : string) : Args :=
  {| source_screen := source_screen a;
     source_x := source_x a; source_y := source_y a;
     source_width := source_width a; source_height := source_height a;
     output_filename := filename;
     output_width := output_width a;
     output_height := output_height a;
     fps := fps a;
     scale := scale a;
     maintain_aspect := maintain_aspect a;
     loglevel := loglevel a |}.

Definition with_output_size (a : Args) (w h : option num) : Args :=
  {| source_screen := source_screen a;
     source_x := source_x a; source_y := source_y a;
     source_width := source_width a; source_height := source_height a;
     output_filename := output_filename a;
     output_width := w;
     output_height := h;
     fps := fps a;
     scale := scale a;
     maintain_aspect := maintain_aspect a;
     loglevel := loglevel a |}.

Definition with_mode (a : Args) (fps : Z) (scale maintain_aspect : bool)
    : Args :=
  {| source_screen := source_screen a;
     source_x := source_x a; source_y := source_y a;
     source_width := source_width a; source_height := source_height a;
     output_filename := output_filename a;
     output_width := output_width a;
     output_height := output_height a;
     fps := fps;
     scale := scale;
     maintain_aspect := maintain_aspect;
     loglevel := loglevel a |}.

(** The request of the specification's worked example: 1920x1080 at the
    origin, compiled to 1280x720, scaling and keeping the aspect. *)
Definition hd_request (screen : Screen) (filename : string) (fps : Z)
    (loglevel : string) : Args :=
  {| source_screen := screen;
     source_x := 0; source_y := 0;
     source_width := 1920; source_height := 1080;
     output_filename := filename;
     output_width := Some (Int 1280);
     output_height := Some (Int 720);
     fps := fps;
     scale := true;
     maintain_aspect := true;
     loglevel := loglevel |}.

(** The float [0.5]. *)
Definition half : float := S754_finite false 4503599627370496 (-53).

End Examples.

(** ** Levels of a forest *)

Module Levels.
Import GtkUtils.

(** The nodes at depth [d] below the nodes of [l], left to right. *)
Definition forest_level (d : nat) (l : list Widget) : list Widget :=
  flat_map (nodes_at_depth d) l.

(** The first [n] levels of a forest, one after the other. *)
Definition forest_order (n : nat) (l : list Widget) : list Widget :=
  flat_map (fun d => forest_level d l) (seq 0 n).

(** The tree of the specification's example: a root with the children A
    and B, where B has the child C, named 'target'. *)
Definition widget_C : Widget := mkWidget "target" None.
Definition widget_A : Widget := mkWidget "A" None.
Definition widget_B : Widget := mkWidget "B" (Some [widget_C]).
Definition widget_root : Widget := mkWidget "root" (Some [widget_A; widget_B]).

End Levels.

(** ** Correct rounding in binary64, as the proofs measure it *)

Module Binary64.

(** The quotient [N / D] as a rounding record: the truncated quotient,
    the round bit and the sticky bit. *)
Definition record_of (N D : Z) : shr_record :=
  {| shr_m := N / D;
     shr_r := D <=? 2 * (N mod D);
     shr_s := negb (N mod D =? 0) && negb (2 * (N mod D) =? D) |}.

(** The quotient [N / D] rounded to the nearest integer, ties to even. *)
Definition rnd (N D : Z) : Z :=
  round_nearest_even (shr_m (record_of N D)) (loc_of_shr_record (record_of N D)).

(** [2 ^ e] as a rational number. *)
Definition bpow (e : Z) : Q := Qpower (2 # 1) e.

(** The value of a positive finite float [M * 2 ^ E]. *)
Definition val (M : positive) (E : Z) : Q := (inject_Z (Zpos M) * bpow E)%Q.

(** What a correctly rounded result [R] knows about the exact value [X],
    given as the fraction [X = num / den]: rounding is monotone against
    the integers below [2 ^ 53], and the relative error is at most
    [2 ^ -53]. *)
Definition rounds (R num den : Q) : Prop :=
  (forall t : Z, t < 2 ^ 53 -> (num <= inject_Z t * den)%Q ->
     (R <= inject_Z t)%Q)
  /\ (forall t : Z, 0 <= t < 2 ^ 53 -> (inject_Z t * den <= num)%Q ->
        (inject_Z t <= R)%Q)
  /\ (R * den * inject_Z (2 ^ 53) <= num * inject_Z (2 ^ 53 + 1))%Q
  /\ (num * inject_Z (2 ^ 53 - 1) <= R * den * inject_Z (2 ^ 53))%Q.

End Binary64.

Ltac split_all := repeat match goal with |- _ /\ _ => split end.

(** * Properties *)

(** ** The command compiler *)

Section CompileCommand.
Import Py Ffmpeg Tokens.

Lemma numeric_prefix_str (z : Z) : numeric_prefix (str z) = true.
Proof.
  unfold str. destruct (Z.to_int z) as [d | d]; destruct d; reflexivity.
Qed.

Lemma numeric_prefix_size (w : Z) (t : string) :
  numeric_prefix (str w ++ "x" ++ t)%string = true.
Proof.
  unfold str. destruct (Z.to_int w) as [d | d]; destruct d; reflexivity.
Qed.

Lemma has_char_app (c : ascii) (s t : string) :
  has_char c (s ++ t)%string = has_char c s || has_char c t.
Proof.
  induction s as [| d s IH]; simpl; [reflexivity |].
  rewrite IH. apply orb_assoc.
Qed.

Lemma has_plus_locator (s t : string) :
  has_char "+" (s ++ "+" ++ t)%string = true.
Proof.
  rewrite has_char_app. simpl. apply orb_true_r.
Qed.

(** Every input token is the log level, a literal, or a computed token. *)
Lemma input_args_origin (a : Args) (t : string) :
  In t (input_args a) ->
  t = loglevel a \/ In t input_literals \/ computed t = true.
Proof.
  unfold input_args, computed. intros H. cbn [In] in H.
  repeat (destruct H as [H | H]; [subst t |]); try contradiction;
    try (right; left; unfold input_literals; cbn [In]; auto 12; fail); auto.
  - right; right. rewrite numeric_prefix_str. reflexivity.
  - right; right. rewrite numeric_prefix_size. reflexivity.
  - right; right. rewrite has_plus_locator. apply orb_true_iff. left.
    apply orb_true_r.
Qed.

(** The five shapes of a filter chain. *)
Lemma filters_shape (a : Args) (ow oh : Z) (fs : list string) :
  filters a ow oh = Ok fs ->
  fs = [] \/ fs = [stretch_filter ow oh] \/ fs = [scale_filter ow oh]
  \/ fs = [scale_filter ow oh; pad_filter ow oh] \/ fs = [pad_filter ow oh].
Proof.
  unfold filters.
  destruct (negb (ow =? source_width a) || negb (oh =? source_height a));
    [| intros [= <-]; auto].
  destruct (scale a && negb (maintain_aspect a)); [intros [= <-]; auto |].
  destruct (int_truediv (source_width a) (source_height a)) as [sa |];
    [| discriminate].
  destruct (int_truediv ow oh) as [oa |]; [| discriminate]. simpl.
  destruct (scale a && negb (ow =? source_width a)
            && negb (oh =? source_height a));
    destruct (negb (scale a) || float_ne sa oa); intros [= <-]; auto 6.
Qed.

Lemma filter_args_origin (a : Args) (ow oh : Z) (fs : list string) (t : string) :
  filters a ow oh = Ok fs ->
  In t (filter_args fs) ->
  In t input_literals \/ computed t = true.
Proof.
  intros Hfs Ht.
  destruct (filters_shape _ _ _ _ Hfs) as [-> | [-> | [-> | [-> | ->]]]];
    simpl in Ht; try contradiction;
    (destruct Ht as [<- | [<- | []]];
     [left; unfold input_literals; simpl; auto 10
     | right; unfold computed; apply orb_true_iff; right; reflexivity]).
Qed.

Lemma output_args_origin (a : Args) (t : string) :
  In t (output_args a) ->
  t = output_filename a
  \/ In t (if fps a =? 0 then screenshot_literals else stream_literals).
Proof.
  unfold output_args, screenshot_literals, stream_literals.
  destruct (fps a =? 0); simpl; intros H;
    repeat (destruct H as [H | H]; [subst t |]); try contradiction; auto 12.
Qed.

(** A compiled command is the input tokens, the filter option and the
    output clause, in that order. *)
Lemma compile_command_parts (a : Args) (tokens : list string) :
  compile_command a = Ok tokens ->
  exists ow oh fs,
    defaulted (output_width a) (source_width a) = Ok ow
    /\ defaulted (output_height a) (source_height a) = Ok oh
    /\ filters a ow oh = Ok fs
    /\ tokens = input_args a ++ filter_args fs ++ output_args a.
Proof.
  unfold compile_command.
  destruct (defaulted (output_width a) (source_width a)) as [ow |];
    [| discriminate].
  destruct (defaulted (output_height a) (source_height a)) as [oh |];
    [| discriminate]. cbn [bind].
  destruct (filters a ow oh) as [fs |] eqn:Hfs; [| discriminate]. cbn [bind].
  intros E. exists ow, oh, fs. repeat split; congruence.
Qed.

(** Where a token of a compiled command comes from. *)
Lemma compile_command_origin (a : Args) (tokens : list string) (t : string) :
  compile_command a = Ok tokens ->
  In t tokens ->
  t = loglevel a \/ t = output_filename a
  \/ In t input_literals
  \/ In t (if fps a =? 0 then screenshot_literals else stream_literals)
  \/ computed t = true.
Proof.
  intros E Ht.
  destruct (compile_command_parts _ _ E) as (ow & oh & fs & _ & _ & Hfs & ->).
  apply in_app_or in Ht. destruct Ht as [Ht | Ht].
  - destruct (input_args_origin _ _ Ht) as [H | [H | H]]; auto.
  - apply in_app_or in Ht. destruct Ht as [Ht | Ht].
    + destruct (filter_args_origin _ _ _ _ _ Hfs Ht) as [H | H]; auto.
    + destruct (output_args_origin _ _ Ht) as [H | H]; auto.
Qed.

End CompileCommand.

Section CompileCommandClaims.
Import Py Ffmpeg Tokens Examples.

(** C1, as stated, fails on the '-f' token: a still request with every
    default compiles to a command that contains '-f', the input-format
    flag. *)
Lemma compile_command_still_contains_f :
  fps still_request = 0
  /\ exists tokens,
       compile_command still_request = Ok tokens /\ In "-f" tokens.
Proof.
  split; [reflexivity |].
  eexists. split; [vm_compute; reflexivity |].
  cbn [In]. repeat ((left; reflexivity) || right).
Qed.

(** C1 (amended): the output clause is selected by the frame rate alone.
    With [fps = 0] the command ends with the single-image clause
    ['-vframes', '1', '-y', output_filename], and '-vcodec', 'rawvideo' and
    'v4l2' occur in it only where the caller passed them as the log level
    or the output filename; with [fps > 0] it ends with the raw-video
    clause, and '-vframes' occurs only where the caller passed it.  The
    token '-f' occurs in every command. *)
Theorem compile_command_output_clause (a : Args) (tokens : list string) :
  compile_command a = Ok tokens ->
  In "-f" tokens
  /\ (fps a = 0 ->
      (exists front,
         tokens = front ++ ["-vframes"; "1"; "-y"; output_filename a])
      /\ forall t, In t ["-vcodec"; "rawvideo"; "v4l2"] -> In t tokens ->
                   t = loglevel a \/ t = output_filename a)
  /\ (0 < fps a ->
      (exists front,
         tokens = front ++ ["-vcodec"; "rawvideo"; "-pix_fmt"; "yuv420p";
                            "-threads"; "0"; "-f"; "v4l2";
                            output_filename a])
      /\ (In "-vframes" tokens ->
          "-vframes" = loglevel a \/ "-vframes" = output_filename a)).
Proof.
  intros E.
  destruct (compile_command_parts _ _ E) as (ow & oh & fs & _ & _ & _ & Et).
  split; [| split].
  - subst tokens. apply in_or_app. left. unfold input_args. cbn [In]. auto 8.
  - intros Hfps. split.
    + exists (input_args a ++ filter_args fs). subst tokens.
      rewrite <- app_assoc. unfold output_args. rewrite Hfps. reflexivity.
    + intros t Ht Hin.
      destruct (compile_command_origin _ _ _ E Hin) as [H | [H | [H | [H | H]]]];
        auto; exfalso; rewrite ?Hfps in H; cbn [In] in Ht;
        destruct Ht as [<- | [<- | [<- | []]]];
        first [ discriminate H
              | cbn in H; intuition discriminate ].
  - intros Hfps.
    assert (Hz : (fps a =? 0) = false) by (apply Z.eqb_neq; lia).
    split.
    + exists (input_args a ++ filter_args fs). subst tokens.
      rewrite <- app_assoc. unfold output_args. rewrite Hz. reflexivity.
    + intros Hin.
      destruct (compile_command_origin _ _ _ E Hin) as [H | [H | [H | [H | H]]]];
        auto; exfalso; rewrite ?Hz in H;
        first [ discriminate H
              | cbn in H; intuition discriminate ].
Qed.

Lemma compile_command_output_clause_witness :
  exists front,
    input_args still_request ++ output_args still_request
    = front ++ ["-vframes"; "1"; "-y"; "out.png"].
Proof.
  destruct (compile_command_output_clause still_request
              (input_args still_request ++ output_args still_request)
              eq_refl) as [_ [H _]].
  exact (proj1 (H eq_refl)).
Defined.

(** C3, as stated, fails when the caller's output filename is itself
    '-vf': the sizes are equal, and the command contains that token. *)
Lemma compile_command_same_size_vf_filename :
  defaulted (output_width (with_output_filename still_request "-vf")) 640
  = Ok 640
  /\ defaulted (output_height (with_output_filename still_request "-vf")) 480
     = Ok 480
  /\ exists tokens,
       compile_command (with_output_filename still_request "-vf") = Ok tokens
       /\ In "-vf" tokens.
Proof.
  split; [reflexivity | split; [reflexivity |]].
  eexists. split; [vm_compute; reflexivity |].
  cbn [In]. repeat ((left; reflexivity) || right).
Qed.

(** C3 (amended): when the defaulted output width and height equal the
    source width and height, the command is the input tokens followed
    directly by the output clause, for every scale, maintain_aspect and
    fps: no filter option is written, and '-vf' occurs only where the
    caller passed it as the log level or the output filename. *)
Theorem compile_command_same_size_no_filter (a : Args) :
  defaulted (output_width a) (source_width a) = Ok (source_width a) ->
  defaulted (output_height a) (source_height a) = Ok (source_height a) ->
  compile_command a = Ok (input_args a ++ output_args a)
  /\ (In "-vf" (input_args a ++ output_args a) ->
      "-vf" = loglevel a \/ "-vf" = output_filename a).
Proof.
  intros Hw Hh.
  assert (E : compile_command a = Ok (input_args a ++ output_args a)).
  { unfold compile_command. rewrite Hw, Hh. cbn [bind].
    unfold filters. rewrite !Z.eqb_refl. reflexivity. }
  split; [exact E |].
  intros Hin. apply in_app_or in Hin. destruct Hin as [Hin | Hin].
  - left. unfold input_args in Hin. cbn [In] in Hin.
    repeat (destruct Hin as [Hin | Hin]; [try discriminate Hin |]);
      try contradiction; auto; exfalso.
    + pose proof (numeric_prefix_str
                    (if negb (fps a =? 0) then fps a else 120)) as H.
      rewrite Hin in H. discriminate H.
    + pose proof (numeric_prefix_size (source_width a)
                    (str (source_height a))) as H.
      rewrite Hin in H. discriminate H.
    + pose proof (has_plus_locator (screen_full_id (source_screen a))
                    (str (source_x a) ++ "," ++ str (source_y a))) as H.
      rewrite Hin in H. discriminate H.
  - right. destruct (output_args_origin _ _ Hin) as [H | H]; [exact H |].
    exfalso. unfold screenshot_literals, stream_literals in H.
    destruct (fps a =? 0); cbn [In] in H; intuition discriminate.
Qed.

Lemma compile_command_same_size_no_filter_witness :
  compile_command still_request
  = Ok (input_args still_request ++ output_args still_request).
Proof.
  exact (proj1 (compile_command_same_size_no_filter still_request
                  eq_refl eq_refl)).
Defined.

(** C4: stretch mode.  With [scale] true, [maintain_aspect] false and an
    output size that differs from the source size in width or in height,
    the filter option is '-vf' followed by the single stretch-to-fit
    filter 'scale=width=<output_width>:height=<output_height>'. *)
Theorem compile_command_stretch (a : Args) (ow oh : Z) :
  scale a = true ->
  maintain_aspect a = false ->
  defaulted (output_width a) (source_width a) = Ok ow ->
  defaulted (output_height a) (source_height a) = Ok oh ->
  ow <> source_width a \/ oh <> source_height a ->
  compile_command a
  = Ok (input_args a
        ++ ["-vf"; ("scale=width=" ++ str ow ++ ":height=" ++ str oh)%string]
        ++ output_args a).
Proof.
  intros Hs Hm Hw Hh Hd.
  unfold compile_command. rewrite Hw, Hh. cbn [bind].
  unfold filters. rewrite Hs, Hm.
  assert (Hne : negb (ow =? source_width a) || negb (oh =? source_height a)
                = true).
  { apply orb_true_iff.
    destruct Hd as [Hd | Hd]; [left | right];
      apply negb_true_iff, Z.eqb_neq; exact Hd. }
  rewrite Hne. reflexivity.
Qed.

Lemma compile_command_stretch_witness :
  compile_command
    (with_mode (with_output_size still_request (Some (Int 320)) None)
       0 true false)
  = Ok (input_args still_request
        ++ ["-vf"; "scale=width=320:height=480"]
        ++ output_args still_request).
Proof.
  apply (compile_command_stretch
           (with_mode (with_output_size still_request (Some (Int 320)) None)
              0 true false) 320 480);
    try reflexivity.
  left. discriminate.
Defined.

(** C5: without scaling.  With [scale] false and an output size that
    differs from the source size, whenever the two aspect ratios
    [source_width / source_height] and [output_width / output_height] can
    be computed (whether or not they differ, so in particular when they
    differ) the filter option carries the centring pad filter of the
    output size. *)
Theorem compile_command_pad (a : Args) (ow oh : Z) (source_aspect output_aspect : float) :
  scale a = false ->
  defaulted (output_width a) (source_width a) = Ok ow ->
  defaulted (output_height a) (source_height a) = Ok oh ->
  ow <> source_width a \/ oh <> source_height a ->
  int_truediv (source_width a) (source_height a) = Ok source_aspect ->
  int_truediv ow oh = Ok output_aspect ->
  compile_command a
  = Ok (input_args a
        ++ ["-vf"; ("pad=width=" ++ str ow ++ ":height=" ++ str oh
                    ++ ":x=(ow-iw)/2:y=(oh-ih)/2")%string]
        ++ output_args a).
Proof.
  intros Hs Hw Hh Hd Hsa Hoa.
  unfold compile_command. rewrite Hw, Hh. cbn [bind].
  unfold filters. rewrite Hs, Hsa, Hoa.
  assert (Hne : negb (ow =? source_width a) || negb (oh =? source_height a)
                = true).
  { apply orb_true_iff.
    destruct Hd as [Hd | Hd]; [left | right];
      apply negb_true_iff, Z.eqb_neq; exact Hd. }
  rewrite Hne. reflexivity.
Qed.

Lemma compile_command_pad_witness :
  compile_command
    (with_mode (with_output_size still_request (Some (Int 800)) (Some (Int 480)))
       0 false true)
  = Ok (input_args still_request
        ++ ["-vf"; "pad=width=800:height=480:x=(ow-iw)/2:y=(oh-ih)/2"]
        ++ output_args still_request).
Proof.
  eapply (compile_command_pad
            (with_mode
               (with_output_size still_request (Some (Int 800)) (Some (Int 480)))
               0 false true) 800 480);
    try (vm_compute; reflexivity).
  left. discriminate.
Defined.

(** C6: the worked example.  Source 1920x1080 at (0, 0), output 1280x720,
    [scale] and [maintain_aspect] both true: the filter option is '-vf'
    followed by the one filter
    'scale=width=1280:height=720:force_original_aspect_ratio=decrease', and
    no pad filter is appended, because the two quotients 1920/1080 and
    1280/720 are the same float. *)
Theorem compile_command_hd_example (screen : Screen) (filename : string)
    (fps : Z) (loglevel : string) :
  compile_command (hd_request screen filename fps loglevel)
  = Ok (input_args (hd_request screen filename fps loglevel)
        ++ ["-vf";
            "scale=width=1280:height=720:force_original_aspect_ratio=decrease"]
        ++ output_args (hd_request screen filename fps loglevel))
  /\ int_truediv 1920 1080 = int_truediv 1280 720
  /\ exists q, int_truediv 1920 1080 = Ok q /\ float_ne q q = false.
Proof.
  split; [| split].
  - unfold compile_command, hd_request, defaulted. cbn [truthy num_truthy
      output_width output_height source_width source_height int bind].
    cbn [Z.eqb negb]. cbn [bind].
    unfold filters.
    cbn [source_width source_height scale maintain_aspect].
    change (int_truediv 1920 1080) with
      (Ok (S754_finite false 8006399337547548 (-52)) : result float).
    change (int_truediv 1280 720) with
      (Ok (S754_finite false 8006399337547548 (-52)) : result float).
    reflexivity.
  - vm_compute. reflexivity.
  - eexists. split; vm_compute; reflexivity.
Qed.

(** The compiler reads the output size only through [defaulted]. *)
Lemma compile_command_output_size (a : Args) (w h : option num) :
  defaulted w (source_width a) = defaulted (output_width a) (source_width a) ->
  defaulted h (source_height a)
  = defaulted (output_height a) (source_height a) ->
  compile_command (with_output_size a w h) = compile_command a.
Proof.
  intros Hw Hh. unfold compile_command.
  cbn [with_output_size output_width output_height source_width source_height].
  rewrite Hw, Hh. reflexivity.
Qed.

Lemma defaulted_source (v : option num) (source : Z) :
  truthy v = false -> defaulted v source = Ok source.
Proof.
  intros H. unfold defaulted. rewrite H. reflexivity.
Qed.

Lemma defaulted_int_source (source : Z) :
  defaulted (Some (Int source)) source = Ok source.
Proof.
  unfold defaulted. cbn [truthy num_truthy int].
  destruct (negb (negb (source =? 0))); reflexivity.
Qed.

(** C10, as stated, fails: the size [screenshot] computes for a 1x2
    geometry under a maximal height of 1 has the width 0.5, which is true
    as a condition and which [int()] then turns into 0, so the command
    carries a zero output width. *)
Lemma compile_command_fractional_width_is_zero :
  exists a tokens,
    screenshot_args ":0.0" {| x := 0; y := 0; width := 1; height := 2 |}
      "out.png" None (Some 1) = Ok a
    /\ output_width a = Some (Float half)
    /\ truthy (output_width a) = true
    /\ defaulted (output_width a) (source_width a) = Ok 0
    /\ compile_command a = Ok tokens
    /\ In "scale=width=0:height=1" tokens.
Proof.
  eexists. eexists.
  split; [vm_compute; reflexivity |].
  split; [reflexivity |].
  split; [reflexivity |].
  split; [reflexivity |].
  split; [vm_compute; reflexivity |].
  cbn [In]. repeat ((left; reflexivity) || right).
Qed.

(** C10 (amended): an output width that is 0 or absent is replaced by the
    source width, so the command is the one compiled for an output width
    equal to the source width (and likewise for the height); a non-zero
    integer, negative ones included, is passed through unchanged; and the
    defaulted output width is zero only when the source width is zero or
    when the caller passed a non-zero float, which [int()] truncates. *)
Theorem compile_command_zero_output_size (a : Args) :
  (truthy (output_width a) = false ->
   compile_command a
   = compile_command
       (with_output_size a (Some (Int (source_width a))) (output_height a)))
  /\ (truthy (output_height a) = false ->
      compile_command a
      = compile_command
          (with_output_size a (output_width a) (Some (Int (source_height a)))))
  /\ (forall n, n <> 0 -> output_width a = Some (Int n) ->
      defaulted (output_width a) (source_width a) = Ok n)
  /\ (forall n, n <> 0 -> output_height a = Some (Int n) ->
      defaulted (output_height a) (source_height a) = Ok n)
  /\ (defaulted (output_width a) (source_width a) = Ok 0 ->
      source_width a = 0
      \/ exists f, output_width a = Some (Float f) /\ float_is_zero f = false)
  /\ (defaulted (output_height a) (source_height a) = Ok 0 ->
      source_height a = 0
      \/ exists f, output_height a = Some (Float f) /\ float_is_zero f = false).
Proof.
  assert (Hint : forall n source, n <> 0 ->
                   defaulted (Some (Int n)) source = Ok n).
  { intros n source Hn. unfold defaulted. cbn [truthy num_truthy int].
    apply Z.eqb_neq in Hn. rewrite Hn. reflexivity. }
  assert (Hzero : forall v source, defaulted v source = Ok 0 ->
                    source = 0
                    \/ exists f, v = Some (Float f) /\ float_is_zero f = false).
  { intros v source. unfold defaulted.
    destruct v as [[n | f] |]; cbn [truthy num_truthy int].
    - destruct (n =? 0) eqn:Hn; cbn [negb].
      + intros [= ->]. left. reflexivity.
      + intros [= ->]. discriminate Hn.
    - destruct (float_is_zero f) eqn:Hf; cbn [negb].
      + intros [= ->]. left. reflexivity.
      + intros _. right. exists f. split; [reflexivity | exact Hf].
    - intros [= ->]. left. reflexivity. }
  repeat split.
  - intros H. symmetry. apply compile_command_output_size; [| reflexivity].
    rewrite defaulted_int_source, (defaulted_source _ _ H). reflexivity.
  - intros H. symmetry. apply compile_command_output_size; [reflexivity |].
    rewrite defaulted_int_source, (defaulted_source _ _ H). reflexivity.
  - intros n Hn ->. apply Hint, Hn.
  - intros n Hn ->. apply Hint, Hn.
  - apply Hzero.
  - apply Hzero.
Qed.

End CompileCommandClaims.

(** ** The version query *)

Section GetVersion.
Import Py Ffmpeg Tokens.

(** A word: a string without a space. *)
Lemma split_word (w rest : string) :
  has_char " " w = false ->
  split " " (w ++ " " ++ rest)%string = w :: split " " rest.
Proof.
  induction w as [| c w IH]; intros Hw.
  - reflexivity.
  - cbn [has_char] in Hw. apply orb_false_iff in Hw. destruct Hw as [Hc Hw].
    cbn [append split]. rewrite Hc.
    change (split " " (w ++ String " " rest))
      with (split " " (w ++ " " ++ rest)%string).
    rewrite (IH Hw). reflexivity.
Qed.

Lemma split_last_word (w : string) :
  has_char " " w = false -> split " " w = [w].
Proof.
  induction w as [| c w IH]; intros Hw.
  - reflexivity.
  - cbn [has_char] in Hw. apply orb_false_iff in Hw. destruct Hw as [Hc Hw].
    cbn [split]. rewrite Hc, (IH Hw). reflexivity.
Qed.

(** A non-zero exit status yields [None]. *)
Lemma get_version_unavailable (proc : Process) :
  wait proc <> 0 -> get_version proc = Ok None.
Proof.
  intros H. unfold get_version. apply Z.eqb_neq in H. rewrite H. reflexivity.
Qed.

(** A first line '<tool> version <v> ...' yields [<v>]. *)
Lemma get_version_parsed (tool v rest : string) :
  has_char " " tool = false ->
  has_char " " v = false ->
  get_version {| wait := 0;
                 stdout_readline :=
                   (tool ++ " " ++ "version" ++ " " ++ v ++ " " ++ rest)%string |}
  = Ok (Some v).
Proof.
  intros Ht Hv. unfold get_version. cbn [wait stdout_readline Z.eqb negb].
  rewrite (split_word tool _ Ht).
  rewrite (split_word "version" _ eq_refl).
  rewrite (split_word v _ Hv).
  reflexivity.
Qed.

(** A first line of at least two words whose second word is not 'version'
    yields the sentinel. *)
Lemma get_version_unknown (w1 w2 rest : string) :
  has_char " " w1 = false ->
  has_char " " w2 = false ->
  w2 <> "version" ->
  get_version {| wait := 0;
                 stdout_readline := (w1 ++ " " ++ w2 ++ " " ++ rest)%string |}
  = Ok (Some "<Unknown>")
  /\ get_version {| wait := 0; stdout_readline := (w1 ++ " " ++ w2)%string |}
     = Ok (Some "<Unknown>").
Proof.
  intros H1 H2 Hne. apply String.eqb_neq in Hne.
  unfold get_version. cbn [wait stdout_readline Z.eqb negb].
  rewrite !(split_word w1 _ H1), (split_word w2 _ H2), (split_last_word w2 H2).
  cbn [index nth_error bind]. rewrite Hne. split; reflexivity.
Qed.

(** A first line of a single word raises [IndexError] at [words[1]]. *)
Lemma get_version_one_word (w : string) :
  has_char " " w = false ->
  get_version {| wait := 0; stdout_readline := w |} = Raise IndexError.
Proof.
  intros H. unfold get_version. cbn [wait stdout_readline Z.eqb negb].
  rewrite (split_last_word w H). reflexivity.
Qed.

(** C2: the three outcomes the specification lists, and the case it
    misses.  A non-zero exit yields [None]; 'ffmpeg version 4.4.2-test ...'
    yields '4.4.2-test'; 'ffmpeg weird-garbage' yields '<Unknown>'; but a
    first line of fewer than two words (here 'ffmpeg' followed by a
    newline, and the empty line of a silent tool) raises [IndexError]
    instead of yielding the sentinel, and so does the two-word line
    'ffmpeg version'. *)
Theorem get_version_short_line_raises :
  get_version {| wait := 1; stdout_readline := "" |} = Ok None
  /\ get_version
       {| wait := 0;
          stdout_readline := "ffmpeg version 4.4.2-test Copyright (c) 2000" |}
     = Ok (Some "4.4.2-test")
  /\ get_version {| wait := 0; stdout_readline := "ffmpeg weird-garbage" |}
     = Ok (Some "<Unknown>")
  /\ get_version
       {| wait := 0; stdout_readline := String "f" (String "f" (String "m"
            (String "p" (String "e" (String "g" (String "010" ""))))))  |}
     = Raise IndexError
  /\ get_version {| wait := 0; stdout_readline := "" |} = Raise IndexError
  /\ get_version {| wait := 0; stdout_readline := "ffmpeg version" |}
     = Raise IndexError.
Proof.
  repeat split; reflexivity.
Qed.

End GetVersion.

(** ** The widget finder *)

Section FindChildById.
Import GtkUtils Levels.

Lemma up_to_first_no_match (p : Widget -> bool) (l : list Widget) :
  find p l = None -> up_to_first p l = l.
Proof.
  induction l as [| w l IH]; cbn [find up_to_first]; [reflexivity |].
  destruct (p w); [discriminate |]. intros H. rewrite (IH H). reflexivity.
Qed.

Lemma up_to_first_app (p : Widget -> bool) (l r : list Widget) :
  up_to_first p (l ++ r)
  = match find p l with
    | Some _ => up_to_first p l
    | None => l ++ up_to_first p r
    end.
Proof.
  induction l as [| w l IH]; cbn [app find up_to_first]; [reflexivity |].
  destruct (p w); [reflexivity |]. rewrite IH.
  destruct (find p l); reflexivity.
Qed.

Lemma find_app (p : Widget -> bool) (l r : list Widget) :
  find p (l ++ r)
  = match find p l with
    | Some w => Some w
    | None => find p r
    end.
Proof.
  induction l as [| w l IH]; cbn [app find]; [reflexivity |].
  destruct (p w); [reflexivity | exact IH].
Qed.

(** One pass of the [for] loop over a level: it stops at the first match,
    and otherwise has read every name and gathered every child. *)
Lemma for_children_spec (name : string) (children : list Widget) (st : State) :
  for_children name children st
  = match find (matches name) children with
    | Some child =>
        inl (visited st ++ up_to_first (matches name) children, Some child)
    | None =>
        inr {| visited := visited st ++ children;
               next_level := next_level st ++ flat_map child_nodes children |}
    end.
Proof.
  revert st. induction children as [| child rest IH]; intros st.
  - cbn [for_children find flat_map]. rewrite !app_nil_r.
    destruct st; reflexivity.
  - cbn [for_children find up_to_first flat_map].
    change (String.eqb (get_name child) name) with (matches name child).
    destruct (matches name child) eqn:E; [reflexivity |].
    rewrite IH. cbn [visited next_level].
    destruct (find (matches name) rest) as [found |].
    + rewrite <- app_assoc. reflexivity.
    + unfold child_nodes at 2.
      destruct (get_children child); rewrite <- ?app_assoc; reflexivity.
Qed.

Lemma forest_level_0 (l : list Widget) : forest_level 0 l = l.
Proof.
  unfold forest_level. induction l as [| w l IH]; [reflexivity |].
  change (flat_map (nodes_at_depth 0) (w :: l))
    with (w :: flat_map (nodes_at_depth 0) l).
  rewrite IH. reflexivity.
Qed.

Lemma forest_level_S (d : nat) (l : list Widget) :
  forest_level (S d) l = forest_level d (flat_map child_nodes l).
Proof.
  unfold forest_level. induction l as [| w l IH]; [reflexivity |].
  change (flat_map (nodes_at_depth (S d)) (w :: l))
    with (flat_map (nodes_at_depth d) (child_nodes w)
          ++ flat_map (nodes_at_depth (S d)) l).
  change (flat_map child_nodes (w :: l))
    with (child_nodes w ++ flat_map child_nodes l).
  rewrite flat_map_app, IH. reflexivity.
Qed.

Lemma forest_order_S (n : nat) (l : list Widget) :
  forest_order (S n) l = l ++ forest_order n (flat_map child_nodes l).
Proof.
  unfold forest_order. cbn [seq flat_map]. rewrite forest_level_0.
  f_equal. rewrite <- seq_shift, flat_map_concat_map, map_map.
  rewrite flat_map_concat_map. f_equal.
  apply map_ext. intros d. apply forest_level_S.
Qed.

Lemma forest_order_nil (n : nat) : forest_order n [] = [].
Proof.
  unfold forest_order, forest_level.
  induction (seq 0 n) as [| d ds IH]; [reflexivity | exact IH].
Qed.

(** The [while] loop, given enough iterations for the levels that are not
    empty, visits the forest level by level up to the first match. *)
Lemma while_next_level_spec (name : string) (fuel : nat) :
  forall (seen l : list Widget),
    (forall d, (fuel <= d)%nat -> forest_level d l = []) ->
    while_next_level fuel name {| visited := seen; next_level := l |}
    = Some (seen ++ up_to_first (matches name) (forest_order fuel l),
            find (matches name) (forest_order fuel l)).
Proof.
  induction fuel as [| fuel IH]; intros seen l Hempty.
  - assert (l = []) as ->.
    { rewrite <- (forest_level_0 l). apply Hempty. apply le_n. }
    cbn. rewrite app_nil_r. reflexivity.
  - destruct l as [| w l].
    + cbn [while_next_level next_level visited]. rewrite forest_order_nil.
      cbn. rewrite app_nil_r. reflexivity.
    + cbn [while_next_level next_level visited].
      rewrite for_children_spec, forest_order_S, up_to_first_app, find_app.
      cbn [visited next_level app].
      destruct (find (matches name) (w :: l)) as [child |]; [reflexivity |].
      rewrite IH.
      * rewrite <- app_assoc. reflexivity.
      * intros d Hd. rewrite <- forest_level_S. apply Hempty.
        apply le_n_S, Hd.
Qed.

Lemma child_height (w c : Widget) :
  In c (child_nodes w) -> (height c < height w)%nat.
Proof.
  destruct w as [n [cs |]]; cbn [child_nodes get_children height];
    [| contradiction].
  intros Hin. apply Nat.lt_succ_r.
  assert (H : Forall (fun k => (k <= list_max (map height cs))%nat)
                (map height cs)) by (apply list_max_le, le_n).
  rewrite Forall_forall in H. apply H, in_map, Hin.
Qed.

Lemma flat_map_nil {A B : Type} (f : A -> list B) (l : list A) :
  (forall a, In a l -> f a = []) -> flat_map f l = [].
Proof.
  induction l as [| a l IH]; intros H; [reflexivity |].
  cbn [flat_map]. rewrite (H a (or_introl eq_refl)), IH; [reflexivity |].
  intros b Hb. apply H. right. exact Hb.
Qed.

(** Below its height a tree has no nodes. *)
Lemma nodes_at_depth_beyond (d : nat) :
  forall w, (height w < d)%nat -> nodes_at_depth d w = [].
Proof.
  induction d as [| d IH]; intros w Hd; [inversion Hd |].
  cbn [nodes_at_depth]. apply flat_map_nil. intros c Hc.
  apply IH. pose proof (child_height w c Hc). lia.
Qed.

Lemma forest_level_root (d : nat) (root : Widget) :
  forest_level d [root] = nodes_at_depth d root.
Proof.
  unfold forest_level. cbn [flat_map]. apply app_nil_r.
Qed.

Lemma forest_order_root (root : Widget) :
  forest_order (S (height root)) [root] = breadth_first_order root.
Proof.
  unfold forest_order, breadth_first_order.
  apply flat_map_ext. intros d. apply forest_level_root.
Qed.

(** Levels that are empty add nothing to the order. *)
Lemma forest_order_stable (n m : nat) (l : list Widget) :
  (forall d, (n <= d)%nat -> forest_level d l = []) ->
  (n <= m)%nat ->
  forest_order m l = forest_order n l.
Proof.
  intros Hempty Hle. unfold forest_order.
  replace m with (n + (m - n))%nat by lia.
  rewrite seq_app, flat_map_app. cbn [Nat.add].
  rewrite (flat_map_nil _ (seq n (m - n))); [apply app_nil_r |].
  intros d Hd. apply in_seq in Hd. apply Hempty. lia.
Qed.

(** C7: the search is breadth-first.  Given enough iterations for the
    levels of the tree, [find_child_by_id] reads the names of the nodes in
    breadth-first order (the root, then all nodes at depth 1 from left to
    right, then all nodes at depth 2, ...; a node without [get_children]
    has no children), stops at the first node whose name equals the
    target and returns it, and returns [None], having visited every node,
    when no name equals the target. *)
Theorem find_child_by_id_breadth_first (fuel : nat) (root : Widget)
    (name : string) :
  (height root < fuel)%nat ->
  find_child_by_id fuel root name
  = Some (up_to_first (matches name) (breadth_first_order root),
          find (matches name) (breadth_first_order root)).
Proof.
  intros Hfuel. unfold find_child_by_id.
  assert (Hempty : forall d, (S (height root) <= d)%nat ->
                     forest_level d [root] = []).
  { intros d Hd. rewrite forest_level_root. apply nodes_at_depth_beyond, Hd. }
  rewrite while_next_level_spec.
  - rewrite (forest_order_stable (S (height root)) fuel [root] Hempty Hfuel).
    rewrite forest_order_root. reflexivity.
  - intros d Hd. apply Hempty. lia.
Qed.

Lemma find_child_by_id_breadth_first_witness :
  find_child_by_id 3 widget_root "target"
  = Some ([widget_root; widget_A; widget_B; widget_C], Some widget_C).
Proof.
  apply (find_child_by_id_breadth_first 3 widget_root "target").
  vm_compute. lia.
Defined.

End FindChildById.

(** ** The widget finder: what the search returns *)

Section FindChildByIdMore.
Import GtkUtils Levels.

(** A search that has ended gives the same answer with more iterations
    allowed. *)
Lemma while_next_level_more_fuel (name : string) (fuel : nat) :
  forall st r,
    while_next_level fuel name st = Some r ->
    forall fuel', (fuel <= fuel')%nat ->
    while_next_level fuel' name st = Some r.
Proof.
  induction fuel as [| fuel IH]; intros st r H fuel' Hle.
  - destruct fuel'; cbn [while_next_level] in *;
      destruct (next_level st); [exact H | discriminate | exact H | discriminate].
  - destruct fuel' as [| fuel']; [lia |].
    cbn [while_next_level] in *.
    destruct (next_level st) as [| w l]; [exact H |].
    destruct (for_children name (w :: l) _) as [found | st']; [exact H |].
    apply (IH _ _ H). lia.
Qed.

(** Whatever the bound on the iterations, a search that ends has read the
    names in breadth-first order up to the first match. *)
Lemma find_child_by_id_order (fuel : nat) (root : Widget) (name : string)
    (r : list Widget * option Widget) :
  find_child_by_id fuel root name = Some r ->
  r = (up_to_first (matches name) (breadth_first_order root),
       find (matches name) (breadth_first_order root)).
Proof.
  intros H. unfold find_child_by_id in H.
  assert (H' := while_next_level_more_fuel _ _ _ _ H
                  (Nat.max fuel (S (height root))) ltac:(lia)).
  assert (Hempty : forall d, (S (height root) <= d)%nat ->
                     forest_level d [root] = []).
  { intros d Hd. rewrite forest_level_root. apply nodes_at_depth_beyond, Hd. }
  rewrite while_next_level_spec in H' by (intros d Hd; apply Hempty; lia).
  rewrite (forest_order_stable (S (height root)) _ [root] Hempty) in H' by lia.
  rewrite forest_order_root in H'. cbn [app] in H'. congruence.
Qed.

(** The first match of a list of levels lies in some level, and no level
    before it holds a match. *)
Lemma find_levels (p : Widget -> bool) (f : nat -> list Widget) (w : Widget)
    (n : nat) :
  forall s,
    find p (flat_map f (seq s n)) = Some w ->
    exists d, (s <= d < s + n)%nat /\ In w (f d) /\ p w = true
      /\ forall d' v, (s <= d' < d)%nat -> In v (f d') -> p v = false.
Proof.
  induction n as [| n IH]; intros s H; [discriminate |].
  cbn [seq flat_map] in H. rewrite find_app in H.
  destruct (find p (f s)) as [v |] eqn:E.
  - injection H as ->. apply find_some in E. exists s.
    split; [lia |]. split; [tauto |]. split; [tauto |]. intros; lia.
  - destruct (IH _ H) as (d & Hd & Hin & Hp & Hbefore). exists d.
    split; [lia |]. split; [exact Hin |]. split; [exact Hp |].
    intros d' v Hd' Hv. destruct (Nat.eq_dec d' s) as [-> | Hne].
    + apply (find_none _ _ E), Hv.
    + apply (Hbefore d'); [lia | exact Hv].
Qed.

(** X1: the widget the search returns carries the name asked for, is a
    node of the tree, and is a shallowest one: no node nearer to the root
    carries the name.  This holds whatever bound is put on the number of
    iterations. *)
Theorem find_child_by_id_shallowest (fuel : nat) (root : Widget)
    (name : string) (seen : list Widget) (w : Widget) :
  find_child_by_id fuel root name = Some (seen, Some w) ->
  get_name w = name
  /\ exists d,
       In w (nodes_at_depth d root)
       /\ forall d' v, (d' < d)%nat -> In v (nodes_at_depth d' root) ->
                       get_name v <> name.
Proof.
  intros H. apply find_child_by_id_order in H.
  assert (Hfind : find (matches name) (breadth_first_order root) = Some w)
    by congruence.
  unfold breadth_first_order in Hfind.
  destruct (find_levels _ _ _ _ _ Hfind) as (d & _ & Hin & Hp & Hbefore).
  split; [apply String.eqb_eq, Hp |].
  exists d. split; [exact Hin |].
  intros d' v Hd' Hv. apply String.eqb_neq. apply (Hbefore d'); [lia | exact Hv].
Qed.

Lemma find_child_by_id_shallowest_witness :
  get_name widget_C = "target"
  /\ exists d,
       In widget_C (nodes_at_depth d widget_root)
       /\ forall d' v, (d' < d)%nat -> In v (nodes_at_depth d' widget_root) ->
                       get_name v <> "target".
Proof.
  apply (find_child_by_id_shallowest 3 widget_root "target"
           [widget_root; widget_A; widget_B; widget_C] widget_C).
  reflexivity.
Defined.

(** X2: the search returns [None] exactly when no node of the tree, the
    root included, carries the name. *)
Theorem find_child_by_id_none_iff (fuel : nat) (root : Widget) (name : string) :
  (height root < fuel)%nat ->
  (exists seen, find_child_by_id fuel root name = Some (seen, None))
  <-> (forall d v, In v (nodes_at_depth d root) -> get_name v <> name).
Proof.
  intros Hfuel. split.
  - intros [seen H] d v Hv. apply find_child_by_id_order in H.
    assert (Hfind : find (matches name) (breadth_first_order root) = None)
      by congruence.
    apply String.eqb_neq. apply (find_none _ _ Hfind).
    unfold breadth_first_order. apply in_flat_map. exists d.
    split; [| exact Hv]. apply in_seq.
    destruct (Nat.le_gt_cases d (height root)) as [Hle | Hgt]; [lia |].
    rewrite (nodes_at_depth_beyond d root Hgt) in Hv. contradiction.
  - intros Hnone.
    assert (Hempty : forall d, (S (height root) <= d)%nat ->
                       forest_level d [root] = []).
    { intros d Hd. rewrite forest_level_root. apply nodes_at_depth_beyond, Hd. }
    unfold find_child_by_id. rewrite while_next_level_spec
      by (intros d Hd; apply Hempty; lia).
    rewrite (forest_order_stable (S (height root)) fuel [root] Hempty Hfuel).
    rewrite forest_order_root.
    destruct (find (matches name) (breadth_first_order root)) as [w |] eqn:E.
    + exfalso. apply find_some in E. destruct E as [Hin Hp].
      unfold breadth_first_order in Hin. apply in_flat_map in Hin.
      destruct Hin as (d & _ & Hin). apply (Hnone d w Hin).
      apply String.eqb_eq, Hp.
    + eexists. reflexivity.
Qed.

Lemma find_child_by_id_none_iff_witness :
  (exists seen, find_child_by_id 3 widget_root "absent" = Some (seen, None))
  <-> (forall d v, In v (nodes_at_depth d widget_root) ->
                   get_name v <> "absent").
Proof.
  apply (find_child_by_id_none_iff 3 widget_root "absent").
  vm_compute. lia.
Defined.

End FindChildByIdMore.

(** ** The version query: what it returns and when it fails *)

Section GetVersionMore.
Import Py Ffmpeg Tokens.

(** No piece of a split holds the separator. *)
Lemma split_pieces (sep : ascii) (s : string) :
  Forall (fun w => has_char sep w = false) (split sep s).
Proof.
  induction s as [| c s IH]; cbn [split].
  - constructor; [reflexivity | constructor].
  - destruct (Ascii.eqb c sep) eqn:E.
    + constructor; [reflexivity | exact IH].
    + destruct (split sep s) as [| w ws].
      * constructor; [| constructor]. cbn [has_char]. rewrite E. reflexivity.
      * inversion IH as [| ? ? Hw Hws]; subst.
        constructor; [| exact Hws]. cbn [has_char]. rewrite E. exact Hw.
Qed.

Lemma split_not_nil (sep : ascii) (s : string) : split sep s <> [].
Proof.
  destruct s as [| c s]; cbn [split]; [discriminate |].
  destruct (Ascii.eqb c sep); [discriminate |].
  destruct (split sep s); discriminate.
Qed.

(** Joining the pieces with the separator gives the string back. *)
Lemma join_split (sep : ascii) (s : string) :
  join (String sep "") (split sep s) = s.
Proof.
  unfold join. induction s as [| c s IH]; [reflexivity |].
  cbn [split]. destruct (Ascii.eqb c sep) eqn:E.
  - apply Ascii.eqb_eq in E. subst c.
    pose proof (split_not_nil sep s) as Hn.
    destruct (split sep s) as [| w ws]; [contradiction |].
    cbn [concat append] in *. rewrite IH. reflexivity.
  - pose proof (split_not_nil sep s) as Hn.
    destruct (split sep s) as [| w ws]; [contradiction |].
    destruct ws as [| w' ws']; cbn [concat append] in *;
      rewrite IH; reflexivity.
Qed.

(** X3: a first line '<tool> version <v>', followed or not by further
    words, yields [<v>]. *)
Theorem get_version_third_word (tool v rest : string) :
  has_char " " tool = false ->
  has_char " " v = false ->
  get_version {| wait := 0;
                 stdout_readline :=
                   (tool ++ " version " ++ v ++ " " ++ rest)%string |}
  = Ok (Some v)
  /\ get_version {| wait := 0;
                    stdout_readline := (tool ++ " version " ++ v)%string |}
     = Ok (Some v).
Proof.
  intros Ht Hv. unfold get_version. cbn [wait stdout_readline Z.eqb negb].
  change (tool ++ " version " ++ v ++ " " ++ rest)%string
    with (tool ++ " " ++ "version" ++ " " ++ v ++ " " ++ rest)%string.
  change (tool ++ " version " ++ v)%string
    with (tool ++ " " ++ "version" ++ " " ++ v)%string.
  rewrite !(split_word tool _ Ht).
  rewrite !(split_word "version" _ eq_refl).
  rewrite (split_word v _ Hv), (split_last_word v Hv).
  split; reflexivity.
Qed.

Lemma get_version_third_word_witness :
  get_version {| wait := 0;
                 stdout_readline := "ffmpeg version 4.4.2 Copyright" |}
  = Ok (Some "4.4.2")
  /\ get_version {| wait := 0; stdout_readline := "ffmpeg version 4.4.2" |}
     = Ok (Some "4.4.2").
Proof.
  apply (get_version_third_word "ffmpeg" "4.4.2" "Copyright"); reflexivity.
Defined.

(** X4: the version reported is a single word: whatever the tool
    printed, the string returned holds no space. *)
Theorem get_version_is_a_word (proc : Process) (v : string) :
  get_version proc = Ok (Some v) -> has_char " " v = false.
Proof.
  unfold get_version. destruct (negb (wait proc =? 0)); [discriminate |].
  pose proof (split_pieces " " (stdout_readline proc)) as Hall.
  rewrite Forall_forall in Hall.
  unfold index.
  destruct (nth_error (split " " (stdout_readline proc)) 1) as [w1 |] eqn:E1;
    [| discriminate].
  cbn [bind]. destruct (String.eqb w1 "version").
  - destruct (nth_error (split " " (stdout_readline proc)) 2) as [w2 |] eqn:E2;
      [| discriminate].
    cbn [bind]. intros [= <-]. apply Hall. apply (nth_error_In _ _ E2).
  - intros [= <-]. reflexivity.
Qed.

Lemma get_version_is_a_word_witness :
  has_char " " "4.4.2" = false.
Proof.
  apply (get_version_is_a_word
           {| wait := 0; stdout_readline := "ffmpeg version 4.4.2 Copyright" |}).
  reflexivity.
Defined.

(** X5: the query fails in one way only.  It raises exactly when the tool
    exited with status 0 and its first line is a single word, or is one
    word followed by the word 'version' and nothing more; the exception
    is then [IndexError]. *)
Theorem get_version_raises_iff (proc : Process) (e : exn) :
  get_version proc = Raise e
  <-> e = IndexError
      /\ wait proc = 0
      /\ (has_char " " (stdout_readline proc) = false
          \/ exists w, has_char " " w = false
                       /\ stdout_readline proc = (w ++ " version")%string).
Proof.
  split.
  - unfold get_version. destruct (wait proc =? 0) eqn:Hw; cbn [negb];
      [| discriminate].
    apply Z.eqb_eq in Hw.
    pose proof (split_pieces " " (stdout_readline proc)) as Hall.
    pose proof (join_split " " (stdout_readline proc)) as Hjoin.
    destruct (split " " (stdout_readline proc)) as [| w0 [| w1 [| w2 ws]]].
    + cbn in Hjoin. intros [= <-]. repeat split; auto.
      left. rewrite <- Hjoin. reflexivity.
    + cbn in Hjoin. subst w0. intros [= <-]. repeat split; auto.
      left. inversion Hall; assumption.
    + cbn [index nth_error bind]. destruct (String.eqb w1 "version") eqn:E;
        [| discriminate].
      intros [= <-]. apply String.eqb_eq in E. subst w1.
      repeat split; auto. right. exists w0. split.
      * inversion Hall; assumption.
      * rewrite <- Hjoin. reflexivity.
    + cbn [index nth_error bind]. destruct (String.eqb w1 "version");
        discriminate.
  - intros (-> & Hw & [Hline | (w & Hword & Hline)]).
    + unfold get_version. rewrite Hw. cbn [Z.eqb negb].
      rewrite (split_last_word _ Hline). reflexivity.
    + unfold get_version. rewrite Hw, Hline. cbn [Z.eqb negb].
      change (w ++ " version")%string with (w ++ " " ++ "version")%string.
      rewrite (split_word w _ Hword). reflexivity.
Qed.

End GetVersionMore.

(** ** The command compiler: the remaining modes and the edges *)

Section CompileCommandMore.
Import Py Ffmpeg Tokens Examples.

Lemma sizes_differ (a : Args) (ow oh : Z) :
  ow <> source_width a \/ oh <> source_height a ->
  negb (ow =? source_width a) || negb (oh =? source_height a) = true.
Proof.
  intros Hd. apply orb_true_iff.
  destruct Hd as [Hd | Hd]; [left | right];
    apply negb_true_iff, Z.eqb_neq; exact Hd.
Qed.

Lemma append_assoc (s t u : string) :
  ((s ++ t) ++ u = s ++ (t ++ u))%string.
Proof.
  induction s as [| c s IH]; [reflexivity |].
  cbn [append]. rewrite IH. reflexivity.
Qed.

(** X6: scaling that keeps the aspect.  With [scale] and
    [maintain_aspect] both true and an output size that differs from the
    source size in width and in height, the filter option is '-vf'
    followed by one token: the aspect-preserving scale filter, to which
    the centring pad filter is joined by ', ' exactly when the two
    quotients [source_width / source_height] and
    [output_width / output_height] differ as floats. *)
Theorem compile_command_letterbox (a : Args) (ow oh : Z)
    (source_aspect output_aspect : float) :
  scale a = true ->
  maintain_aspect a = true ->
  defaulted (output_width a) (source_width a) = Ok ow ->
  defaulted (output_height a) (source_height a) = Ok oh ->
  ow <> source_width a ->
  oh <> source_height a ->
  int_truediv (source_width a) (source_height a) = Ok source_aspect ->
  int_truediv ow oh = Ok output_aspect ->
  compile_command a
  = Ok (input_args a
        ++ ["-vf";
            if float_ne source_aspect output_aspect
            then ("scale=width=" ++ str ow ++ ":height=" ++ str oh
                  ++ ":force_original_aspect_ratio=decrease"
                  ++ ", "
                  ++ "pad=width=" ++ str ow ++ ":height=" ++ str oh
                  ++ ":x=(ow-iw)/2:y=(oh-ih)/2")%string
            else ("scale=width=" ++ str ow ++ ":height=" ++ str oh
                  ++ ":force_original_aspect_ratio=decrease")%string]
        ++ output_args a).
Proof.
  intros Hs Hm Hw Hh Hdw Hdh Hsa Hoa.
  unfold compile_command. rewrite Hw, Hh. cbn [bind].
  unfold filters. rewrite Hs, Hm, Hsa, Hoa.
  rewrite (sizes_differ a ow oh (or_introl Hdw)).
  apply Z.eqb_neq in Hdw, Hdh. rewrite Hdw, Hdh.
  cbn [negb andb orb bind].
  destruct (float_ne source_aspect output_aspect); cbn [bind];
    [| reflexivity].
  unfold scale_filter, pad_filter, filter_args, join. cbn [app concat].
  rewrite !append_assoc. reflexivity.
Qed.

Lemma compile_command_letterbox_witness :
  compile_command
    (with_mode (with_output_size still_request (Some (Int 320)) (Some (Int 200)))
       0 true true)
  = Ok (input_args still_request
        ++ ["-vf";
            "scale=width=320:height=200:force_original_aspect_ratio=decrease, pad=width=320:height=200:x=(ow-iw)/2:y=(oh-ih)/2"]
        ++ output_args still_request).
Proof.
  apply (compile_command_letterbox
           (with_mode
              (with_output_size still_request (Some (Int 320)) (Some (Int 200)))
              0 true true)
           320 200
           (S754_finite false 6004799503160661 (-52))
           (S754_finite false 7205759403792794 (-52)));
    try reflexivity; try discriminate; vm_compute; reflexivity.
Defined.

(** X7: when only one of the two dimensions differs, nothing is scaled,
    even with [scale] true: with [maintain_aspect] true the filter option
    is the centring pad filter alone if the two quotients differ as
    floats, and there is no filter option at all if they are equal. *)
Theorem compile_command_one_dimension (a : Args) (ow oh : Z)
    (source_aspect output_aspect : float) :
  scale a = true ->
  maintain_aspect a = true ->
  defaulted (output_width a) (source_width a) = Ok ow ->
  defaulted (output_height a) (source_height a) = Ok oh ->
  (ow <> source_width a /\ oh = source_height a)
  \/ (ow = source_width a /\ oh <> source_height a) ->
  int_truediv (source_width a) (source_height a) = Ok source_aspect ->
  int_truediv ow oh = Ok output_aspect ->
  compile_command a
  = Ok (input_args a
        ++ (if float_ne source_aspect output_aspect
            then ["-vf"; ("pad=width=" ++ str ow ++ ":height=" ++ str oh
                          ++ ":x=(ow-iw)/2:y=(oh-ih)/2")%string]
            else [])
        ++ output_args a).
Proof.
  intros Hs Hm Hw Hh Hd Hsa Hoa.
  unfold compile_command. rewrite Hw, Hh. cbn [bind].
  unfold filters. rewrite Hs, Hm, Hsa, Hoa.
  assert (Hne : negb (ow =? source_width a) || negb (oh =? source_height a)
                = true) by (apply sizes_differ; tauto).
  assert (Hboth : negb (ow =? source_width a) && negb (oh =? source_height a)
                  = false).
  { destruct Hd as [[_ E] | [E _]]; rewrite E, Z.eqb_refl;
      [apply andb_false_r | reflexivity]. }
  rewrite Hne. cbn [negb andb orb bind] in *. rewrite Hboth.
  destruct (float_ne source_aspect output_aspect); reflexivity.
Qed.

Lemma compile_command_one_dimension_witness :
  compile_command
    (with_mode (with_output_size still_request (Some (Int 320)) None)
       0 true true)
  = Ok (input_args still_request
        ++ ["-vf"; "pad=width=320:height=480:x=(ow-iw)/2:y=(oh-ih)/2"]
        ++ output_args still_request).
Proof.
  apply (compile_command_one_dimension
           (with_mode (with_output_size still_request (Some (Int 320)) None)
              0 true true)
           320 480
           (S754_finite false 6004799503160661 (-52))
           (S754_finite false 6004799503160661 (-53)));
    try reflexivity; try (vm_compute; reflexivity).
  left. split; [discriminate | reflexivity].
Defined.

(** X8: a zero height stops the compiler.  When the output size differs
    from the source size and the mode is not stretch-to-fit, a source
    height of 0 raises [ZeroDivisionError]; so does an output height of 0
    once the source quotient has been computed. *)
Theorem compile_command_zero_height (a : Args) (ow oh : Z) :
  defaulted (output_width a) (source_width a) = Ok ow ->
  defaulted (output_height a) (source_height a) = Ok oh ->
  ow <> source_width a \/ oh <> source_height a ->
  scale a = false \/ maintain_aspect a = true ->
  (source_height a = 0 -> compile_command a = Raise ZeroDivisionError)
  /\ (forall source_aspect,
        int_truediv (source_width a) (source_height a) = Ok source_aspect ->
        oh = 0 -> compile_command a = Raise ZeroDivisionError).
Proof.
  intros Hw Hh Hd Hmode.
  assert (Hstretch : scale a && negb (maintain_aspect a) = false).
  { destruct Hmode as [-> | ->]; [reflexivity | apply andb_false_r]. }
  split.
  - intros Hz. unfold compile_command. rewrite Hw, Hh. cbn [bind].
    unfold filters. rewrite (sizes_differ a ow oh Hd), Hstretch, Hz.
    reflexivity.
  - intros sa Hsa Hz. subst oh.
    unfold compile_command. rewrite Hw, Hh. cbn [bind].
    unfold filters. rewrite (sizes_differ a ow 0 Hd), Hstretch, Hsa.
    reflexivity.
Qed.

Lemma compile_command_zero_height_witness :
  compile_command
    {| source_screen := ScreenId ":0.0";
       source_x := 0; source_y := 0;
       source_width := 640; source_height := 0;
       output_filename := "out.png";
       output_width := Some (Int 320); output_height := None;
       fps := 0; scale := false; maintain_aspect := false;
       loglevel := "error" |}
  = Raise ZeroDivisionError.
Proof.
  refine (proj1 (compile_command_zero_height _ 320 0 _ _ _ _) _);
    [ reflexivity | reflexivity | left; discriminate | left; reflexivity
    | reflexivity ].
Defined.

(** X9: the capture frame rate.  Tokens 5 and 6 of every command are
    '-framerate' and the frame rate: [fps] as the caller gave it, a
    negative one included, and 120 when [fps] is 0; and a non-zero [fps],
    a negative one included, selects the raw-video output clause. *)
Theorem compile_command_framerate (a : Args) (tokens : list string) :
  compile_command a = Ok tokens ->
  nth_error tokens 5 = Some "-framerate"
  /\ nth_error tokens 6 = Some (if fps a =? 0 then "120" else str (fps a))
  /\ (fps a <> 0 ->
      exists front,
        tokens = front ++ ["-vcodec"; "rawvideo"; "-pix_fmt"; "yuv420p";
                           "-threads"; "0"; "-f"; "v4l2"; output_filename a]).
Proof.
  intros E.
  destruct (compile_command_parts _ _ E) as (ow & oh & fs & _ & _ & _ & ->).
  split; [reflexivity |]. split.
  - unfold input_args. cbn [app nth_error].
    destruct (fps a =? 0); reflexivity.
  - intros Hfps. apply Z.eqb_neq in Hfps.
    exists (input_args a ++ filter_args fs).
    rewrite <- app_assoc. unfold output_args. rewrite Hfps. reflexivity.
Qed.

Lemma compile_command_framerate_witness :
  nth_error (input_args still_request ++ output_args still_request) 6
  = Some "120".
Proof.
  exact (proj1 (proj2 (compile_command_framerate still_request
                         (input_args still_request ++ output_args still_request)
                         eq_refl))).
Defined.

End CompileCommandMore.

Section Launchers.
Import Py Ffmpeg Tokens Examples.

(** X10: a geometry of height 0 cannot be captured: [screenshot], and
    with it [capture_window], raises [ZeroDivisionError] whatever the
    bounds are, also when none is given. *)
Theorem screenshot_zero_height (screen_id : string) (geometry : Geometry)
    (filename : string) (max_width max_height : option Z) :
  height geometry = 0 ->
  screenshot screen_id geometry filename max_width max_height
  = Raise ZeroDivisionError
  /\ capture_window
       {| screen := {| full_id := screen_id |}; get_abs_geometry := geometry |}
       filename max_width max_height
     = Raise ZeroDivisionError.
Proof.
  intros Hz.
  assert (E : screenshot screen_id geometry filename max_width max_height
              = Raise ZeroDivisionError).
  { unfold screenshot, screenshot_args, screenshot_size. rewrite Hz.
    reflexivity. }
  split; [exact E |]. unfold capture_window.
  cbn [screen full_id get_abs_geometry]. exact E.
Qed.

Lemma screenshot_zero_height_witness :
  screenshot ":0.0" {| x := 0; y := 0; width := 640; height := 0 |}
    "out.png" None None
  = Raise ZeroDivisionError.
Proof.
  exact (proj1 (screenshot_zero_height ":0.0"
                  {| x := 0; y := 0; width := 640; height := 0 |}
                  "out.png" None None eq_refl)).
Defined.

(** X11: the command of a window capture.  Whenever [capture_window]
    compiles a command, it is the eleven input tokens for the window's
    screen and geometry at the log level 'error' and the frame rate 120,
    then either nothing or '-vf' with one stretch-to-fit filter, then the
    single-image clause for the file: no pad filter and no
    aspect-preserving scale is ever written. *)
Theorem capture_window_command (window : Window) (filename : string)
    (max_width max_height : option Z) (tokens : list string) :
  capture_window window filename max_width max_height = Ok tokens ->
  exists filter,
    tokens
    = ["ffmpeg"; "-loglevel"; "error"; "-f"; "x11grab"; "-framerate"; "120";
       "-s"; (str (width (get_abs_geometry window)) ++ "x"
              ++ str (height (get_abs_geometry window)))%string;
       "-i"; (full_id (screen window) ++ "+"
              ++ str (x (get_abs_geometry window)) ++ ","
              ++ str (y (get_abs_geometry window)))%string]
      ++ filter ++ ["-vframes"; "1"; "-y"; filename]
    /\ (filter = []
        \/ exists ow oh,
             filter = ["-vf"; ("scale=width=" ++ str ow ++ ":height="
                               ++ str oh)%string]).
Proof.
  unfold capture_window, screenshot, screenshot_args.
  destruct (screenshot_size _ _ _) as [size |]; [| discriminate].
  cbn [bind]. intros E.
  destruct (compile_command_parts _ _ E) as (ow & oh & fs & _ & _ & Hfs & ->).
  exists (filter_args fs). split; [reflexivity |].
  unfold filters in Hfs. cbn [scale maintain_aspect] in Hfs.
  unfold default_scale in Hfs. cbn [negb andb] in Hfs.
  destruct (negb (ow =? _) || negb (oh =? _)); injection Hfs as <-.
  - right. exists ow, oh. reflexivity.
  - left. reflexivity.
Qed.

Lemma capture_window_command_witness :
  exists filter,
    input_args still_request ++ output_args still_request
    = ["ffmpeg"; "-loglevel"; "error"; "-f"; "x11grab"; "-framerate"; "120";
       "-s"; "640x480"; "-i"; ":0.0+0,0"]
      ++ filter ++ ["-vframes"; "1"; "-y"; "out.png"]
    /\ (filter = []
        \/ exists ow oh,
             filter = ["-vf"; ("scale=width=" ++ str ow ++ ":height="
                               ++ str oh)%string]).
Proof.
  apply (capture_window_command
           {| screen := {| full_id := ":0.0" |};
              get_abs_geometry :=
                {| x := 0; y := 0; width := 640; height := 480 |} |}
           "out.png" None None).
  vm_compute. reflexivity.
Defined.

(** X12: a stream at the frame rate 0 is no stream: whenever [stream], or
    [stream_window], compiles a command for [fps = 0], the command ends
    with the single-image clause and captures at the frame rate 120. *)
Theorem stream_zero_fps (screen_id : string) (geometry : Geometry)
    (filename : string) (tokens : list string) :
  stream screen_id geometry 0 filename = Ok tokens ->
  nth_error tokens 6 = Some "120"
  /\ (exists front, tokens = front ++ ["-vframes"; "1"; "-y"; filename])
  /\ stream_window
       {| screen := {| full_id := screen_id |}; get_abs_geometry := geometry |}
       0 filename
     = Ok tokens.
Proof.
  unfold stream_window. cbn [screen full_id get_abs_geometry].
  intros E. split; [| split; [| exact E]].
  - revert E. unfold stream, stream_args.
    destruct (even_dimension (width geometry)); [| discriminate].
    destruct (even_dimension (height geometry)); [| discriminate].
    cbn [bind]. intros E.
    destruct (compile_command_parts _ _ E) as (ow & oh & fs & _ & _ & _ & ->).
    reflexivity.
  - revert E. unfold stream, stream_args.
    destruct (even_dimension (width geometry)); [| discriminate].
    destruct (even_dimension (height geometry)); [| discriminate].
    cbn [bind]. intros E.
    destruct (compile_command_parts _ _ E) as (ow & oh & fs & _ & _ & _ & ->).
    eexists (input_args _ ++ filter_args fs).
    rewrite <- app_assoc. reflexivity.
Qed.

Lemma stream_zero_fps_witness :
  nth_error
    ["ffmpeg"; "-loglevel"; "error"; "-f"; "x11grab"; "-framerate"; "120";
     "-s"; "640x480"; "-i"; ":0.0+0,0"; "-vframes"; "1"; "-y"; "/dev/video0"]
    6
  = Some "120".
Proof.
  refine (proj1 (stream_zero_fps ":0.0"
                   {| x := 0; y := 0; width := 640; height := 480 |}
                   "/dev/video0" _ _)).
  vm_compute. reflexivity.
Defined.

End Launchers.

(** ** Correct rounding in binary64 *)

Section Rounding.
Import Binary64.


Lemma digits2_pos_size (p : positive) : digits2_pos p = Pos.size p.
Proof. induction p; simpl; congruence. Qed.

Lemma Zdigits2_bounds (p : positive) :
  2 ^ (Zpos (digits2_pos p) - 1) <= Zpos p < 2 ^ Zpos (digits2_pos p).
Proof.
  induction p as [p IH | p IH |].
  - cbn [digits2_pos]. rewrite Pos2Z.inj_succ.
    replace (Z.succ (Zpos (digits2_pos p)) - 1) with (Z.succ (Zpos (digits2_pos p) - 1)) by lia.
    rewrite !Z.pow_succ_r by lia. lia.
  - cbn [digits2_pos]. rewrite Pos2Z.inj_succ.
    replace (Z.succ (Zpos (digits2_pos p)) - 1) with (Z.succ (Zpos (digits2_pos p) - 1)) by lia.
    rewrite !Z.pow_succ_r by lia. lia.
  - cbn. lia.
Qed.

Lemma Zdigits2_unique (p : positive) (d : Z) :
  2 ^ (d - 1) <= Zpos p < 2 ^ d -> Zpos (digits2_pos p) = d.
Proof.
  intros [Hlo Hhi]. pose proof (Zdigits2_bounds p) as [Plo Phi].
  assert (0 < d).
  { destruct (Z_lt_le_dec 0 d) as [|Hd]; [assumption|].
    exfalso. destruct d as [| d | d]; cbn in Hhi; lia. }
  assert (d - 1 < Zpos (digits2_pos p)).
  { apply (Z.pow_lt_mono_r_iff 2); lia. }
  assert (Zpos (digits2_pos p) - 1 < d).
  { apply (Z.pow_lt_mono_r_iff 2); lia. }
  lia.
Qed.

Lemma div2_record (N D q r : Z) :
  0 < D -> 0 <= r < D -> N = D * q + r -> 0 <= q ->
  N / (2 * D) = q / 2 /\ N mod (2 * D) = r + D * (q mod 2).
Proof.
  intros HD Hr HN Hq.
  pose proof (Z.div_mod q 2 ltac:(lia)) as Hq2.
  pose proof (Z.mod_pos_bound q 2 ltac:(lia)) as Hb.
  assert (E : N = 2 * D * (q / 2) + (r + D * (q mod 2))) by nia.
  split.
  - symmetry. apply (Z.div_unique_pos N (2 * D) (q / 2) (r + D * (q mod 2))); [nia | exact E].
  - symmetry. apply (Z.mod_unique_pos N (2 * D) (q / 2) (r + D * (q mod 2))); [nia | exact E].
Qed.

Lemma shr_1_record (N D : Z) :
  0 <= N -> 0 < D -> shr_1 (record_of N D) = record_of N (2 * D).
Proof.
  intros HN HD.
  pose proof (Z.div_mod N D ltac:(lia)) as E.
  pose proof (Z.mod_pos_bound N D HD) as Hr.
  assert (Hq : 0 <= N / D) by (apply Z.div_pos; lia).
  destruct (div2_record N D (N / D) (N mod D) HD Hr E Hq) as [E1 E2].
  unfold record_of. rewrite E1, E2.
  set (q := N / D) in *. set (r := N mod D) in *.
  assert (Hcase : (q = 0 /\ q / 2 = 0 /\ q mod 2 = 0)
                  \/ (q = 1 /\ q / 2 = 0 /\ q mod 2 = 1)
                  \/ (exists p, q = Zpos p~0 /\ q / 2 = Zpos p /\ q mod 2 = 0)
                  \/ (exists p, q = Zpos p~1 /\ q / 2 = Zpos p /\ q mod 2 = 1)).
  { pose proof (Z.div_mod q 2 ltac:(lia)) as Hq2.
    pose proof (Z.mod_pos_bound q 2 ltac:(lia)) as Hb.
    destruct q as [| [p | p |] |];
      first [ lia
            | right; right; right; exists p; lia
            | right; right; left; exists p; lia ]. }
  unfold shr_1.
  destruct Hcase as [(-> & -> & ->) | [(-> & -> & ->) | [(p & -> & -> & ->) | (p & -> & -> & ->)]]];
    f_equal.
  all: repeat match goal with
       | |- context [?a <=? ?b] => destruct (Z.leb_spec a b)
       | |- context [?a =? ?b] => destruct (Z.eqb_spec a b)
       end; cbn [negb andb orb]; try reflexivity; try lia.
Qed.

Lemma record_of_ext (N D D' : Z) : D = D' -> record_of N D = record_of N D'.
Proof. intros ->. reflexivity. Qed.

Lemma pow2_xO (n : positive) : 2 ^ Zpos n~0 = 2 ^ Zpos n * 2 ^ Zpos n.
Proof.
  replace (Zpos n~0) with (Zpos n + Zpos n) by lia.
  apply Z.pow_add_r; lia.
Qed.

Lemma pow2_xI (n : positive) : 2 ^ Zpos n~1 = 2 * (2 ^ Zpos n * 2 ^ Zpos n).
Proof.
  replace (Zpos n~1) with (Z.succ (Zpos n + Zpos n)) by lia.
  rewrite Z.pow_succ_r, Z.pow_add_r by lia. reflexivity.
Qed.

Lemma iter_pos_shr_record (n : positive) :
  forall N D, 0 <= N -> 0 < D ->
    SpecFloat.iter_pos shr_1 n (record_of N D) = record_of N (D * 2 ^ Zpos n).
Proof.
  induction n as [n IH | n IH |]; intros N D HN HD; cbn [SpecFloat.iter_pos].
  - assert (0 < 2 ^ Zpos n) by (apply Z.pow_pos_nonneg; lia).
    rewrite shr_1_record, IH, IH by nia.
    apply record_of_ext. rewrite pow2_xI. ring.
  - assert (0 < 2 ^ Zpos n) by (apply Z.pow_pos_nonneg; lia).
    rewrite IH, IH by nia.
    apply record_of_ext. rewrite pow2_xO. ring.
  - rewrite shr_1_record by lia. apply record_of_ext.
    change (2 ^ 1) with 2. ring.
Qed.

(** [shr] divides by a power of two. *)
Lemma shr_steps (N D e n : Z) :
  0 <= N -> 0 < D ->
  shr (record_of N D) e n
  = (record_of N (D * 2 ^ Z.max 0 n), e + Z.max 0 n).
Proof.
  intros HN HD. unfold shr. destruct n as [| n | n].
  - cbn [Z.max Z.compare]. rewrite Z.mul_1_r, Z.add_0_r. reflexivity.
  - rewrite iter_pos_shr_record by assumption.
    replace (Z.max 0 (Zpos n)) with (Zpos n) by lia. reflexivity.
  - replace (Z.max 0 (Zneg n)) with 0 by lia.
    rewrite Z.mul_1_r, Z.add_0_r. reflexivity.
Qed.


Lemma rnd_spec (N D : Z) :
  0 <= N -> 0 < D ->
  (rnd N D = N / D \/ rnd N D = N / D + 1)
  /\ 2 * (rnd N D * D) <= 2 * N + D
  /\ 2 * N <= 2 * (rnd N D * D) + D
  /\ (N mod D = 0 -> rnd N D = N / D).
Proof.
  intros HN HD.
  pose proof (Z.div_mod N D ltac:(lia)) as E.
  pose proof (Z.mod_pos_bound N D HD) as Hr.
  unfold rnd, record_of, loc_of_shr_record, round_nearest_even. cbn [shr_m].
  set (q := N / D) in *. set (r := N mod D) in *.
  destruct (Z.leb_spec D (2 * r)); destruct (Z.eqb_spec r 0);
    destruct (Z.eqb_spec (2 * r) D); cbn [negb andb];
    try destruct (Z.even q); repeat split; intros; try (left; reflexivity);
    try (right; reflexivity); try nia.
Qed.

(** The location of a remainder is the rounding record of the quotient. *)
Lemma new_location_record (N D : Z) :
  0 <= N -> 0 < D ->
  shr_record_of_loc (N / D) (new_location D (N mod D)) = record_of N D.
Proof.
  intros HN HD.
  pose proof (Z.mod_pos_bound N D HD) as Hr.
  unfold record_of, new_location, new_location_even, new_location_odd.
  remember (N mod D) as r eqn:Er. clear Er.
  destruct (Z.even D) eqn:Hev.
  - destruct (Z.eqb_spec r 0) as [-> | Hr0]; cbn [negb andb shr_record_of_loc].
    + destruct (Z.leb_spec D (2 * 0)); [lia |]. reflexivity.
    + destruct (Z.compare_spec (2 * r) D); cbn [shr_record_of_loc];
        destruct (Z.leb_spec D (2 * r)); destruct (Z.eqb_spec (2 * r) D);
        try lia; reflexivity.
  - assert (Hodd : 2 * r <> D).
    { intros <-. rewrite Z.even_mul in Hev. discriminate. }
    destruct (Z.eqb_spec r 0) as [-> | Hr0]; cbn [negb andb shr_record_of_loc].
    + destruct (Z.leb_spec D (2 * 0)); [lia |]. reflexivity.
    + destruct (Z.compare_spec (2 * r + 1) D); cbn [shr_record_of_loc];
        destruct (Z.leb_spec D (2 * r)); destruct (Z.eqb_spec (2 * r) D);
        try lia; reflexivity.
Qed.

Lemma exact_record (m : Z) : shr_record_of_loc m loc_Exact = record_of m 1.
Proof.
  unfold record_of. rewrite Z.div_1_r, Z.mod_1_r. reflexivity.
Qed.

Lemma Zdigits2_pos_bounds (m : Z) :
  0 < m -> 2 ^ (Zdigits2 m - 1) <= m < 2 ^ Zdigits2 m.
Proof.
  destruct m as [| p | p]; try lia. intros _. apply Zdigits2_bounds.
Qed.

Lemma Zdigits2_pos_unique (m d : Z) :
  2 ^ (d - 1) <= m < 2 ^ d -> 0 < m -> Zdigits2 m = d.
Proof.
  destruct m as [| p | p]; try lia. intros H _. apply Zdigits2_unique, H.
Qed.

Lemma fexp_normal (e : Z) : -1074 <= e - 53 -> fexp 53 1024 e = e - 53.
Proof.
  intros H. unfold fexp, emin. lia.
Qed.

(** Dividing a number of [d] digits by [2 ^ (d - 53)] leaves 53 digits. *)
Lemma div_pow2_digits (N D d : Z) :
  0 < D -> 53 <= d ->
  2 ^ (d - 1) <= N / D < 2 ^ d ->
  2 ^ 52 <= N / (D * 2 ^ (d - 53)) < 2 ^ 53.
Proof.
  intros HD Hd [Hlo Hhi].
  assert (Hp : 0 < 2 ^ (d - 53)) by (apply Z.pow_pos_nonneg; lia).
  rewrite <- Z.div_div by lia.
  assert (E1 : 2 ^ (d - 1) = 2 ^ 52 * 2 ^ (d - 53)).
  { rewrite <- Z.pow_add_r by lia. f_equal. lia. }
  assert (E2 : 2 ^ d = 2 ^ 53 * 2 ^ (d - 53)).
  { rewrite <- Z.pow_add_r by lia. f_equal. lia. }
  split.
  - apply Z.div_le_lower_bound; [exact Hp |]. rewrite Z.mul_comm, <- E1. exact Hlo.
  - apply Z.div_lt_upper_bound; [exact Hp |]. rewrite Z.mul_comm, <- E2. exact Hhi.
Qed.

Lemma binary_round_aux_normal (sx : bool) (N D ex : Z) (lx : location) :
  0 <= N -> 0 < D ->
  shr_record_of_loc (N / D) lx = record_of N D ->
  53 <= Zdigits2 (N / D) ->
  -1074 <= Zdigits2 (N / D) + ex - 53 ->
  Zdigits2 (N / D) + ex <= 1023 ->
  exists M E,
    binary_round_aux 53 1024 sx (N / D) ex lx = S754_finite sx M E
    /\ Zpos (digits2_pos M) = 53
    /\ ex + (Zdigits2 (N / D) - 53) <= E
    /\ Zpos M * 2 ^ (E - (ex + (Zdigits2 (N / D) - 53)))
       = rnd N (D * 2 ^ (Zdigits2 (N / D) - 53)).
Proof.
  intros HN HD Hrec Hd Hlo Hhi.
  set (d := Zdigits2 (N / D)) in *.
  assert (Hq : 0 < N / D).
  { assert (0 <= N / D) by (apply Z.div_pos; lia).
    destruct (Z.eq_dec (N / D) 0) as [E | E]; [| lia].
    unfold d in Hd. rewrite E in Hd. cbn in Hd. lia. }
  pose proof (Zdigits2_pos_bounds _ Hq) as Hdig. fold d in Hdig.
  set (n := d - 53) in *.
  assert (Hp : 0 < 2 ^ n) by (apply Z.pow_pos_nonneg; lia).
  pose proof (div_pow2_digits N D d HD Hd Hdig) as Hq'. fold n in Hq'.
  destruct (rnd_spec N (D * 2 ^ n) HN ltac:(nia)) as (Hm1 & _ & _ & _).
  unfold binary_round_aux, shr_fexp. fold d. rewrite Hrec.
  rewrite fexp_normal by lia.
  replace (d + ex - 53 - ex) with n by lia.
  rewrite shr_steps by lia. replace (Z.max 0 n) with n by lia.
  fold (rnd N (D * 2 ^ n)).
  set (m1 := rnd N (D * 2 ^ n)) in *.
  assert (Hm1r : 2 ^ 52 <= m1 <= 2 ^ 53) by lia.
  rewrite exact_record.
  destruct (Z.eq_dec m1 (2 ^ 53)) as [Ecarry | Ecarry].
  - assert (Hd1 : Zdigits2 m1 = 54).
    { apply Zdigits2_pos_unique; rewrite Ecarry; cbn; lia. }
    rewrite Hd1, fexp_normal by lia.
    replace (54 + (ex + n) - 53 - (ex + n)) with 1 by lia.
    rewrite shr_steps by lia.
    change (Z.max 0 1) with 1. cbn [shr_m record_of].
    rewrite Ecarry. change (2 ^ 53 / (1 * 2 ^ 1)) with (Zpos (2 ^ 52)%positive).
    assert (Hle : (ex + n + 1 <=? 1024 - 53) = true) by (apply Z.leb_le; lia).
    rewrite Hle.
    exists (2 ^ 52)%positive, (ex + n + 1). repeat split; try reflexivity; try lia.
    replace (ex + n + 1 - (ex + n)) with 1 by lia. reflexivity.
  - assert (Hd1 : Zdigits2 m1 = 53).
    { apply Zdigits2_pos_unique; [| lia]. change (53 - 1) with 52. lia. }
    rewrite Hd1, fexp_normal by lia.
    replace (53 + (ex + n) - 53 - (ex + n)) with 0 by lia.
    rewrite shr_steps by lia.
    change (Z.max 0 0) with 0. cbn [shr_m record_of].
    rewrite Z.mul_1_r, Z.div_1_r, Z.add_0_r.
    destruct m1 as [| M |] eqn:Em1; try lia.
    assert (Hle : (ex + n <=? 1024 - 53) = true) by (apply Z.leb_le; lia).
    rewrite Hle.
    exists M, (ex + n). repeat split; try lia.
    + exact Hd1.
    + rewrite Z.sub_diag. cbn. lia.
Qed.



Lemma bpow_pos (e : Z) : (0 < bpow e)%Q.
Proof. apply Qpower_0_lt. reflexivity. Qed.

Lemma bpow_add (a b : Z) : (bpow (a + b) == bpow a * bpow b)%Q.
Proof. apply Qpower_plus. discriminate. Qed.

Lemma bpow_Z (e : Z) : 0 <= e -> (bpow e == inject_Z (2 ^ e))%Q.
Proof. intros H. unfold bpow. rewrite Zpower_Qpower by exact H. reflexivity. Qed.

Lemma bpow_opp (e : Z) : (bpow (- e) == / bpow e)%Q.
Proof. apply Qpower_opp. Qed.


Lemma inject_Z_pos (z : Z) : 0 < z -> (0 < inject_Z z)%Q.
Proof. intros H. rewrite (Zlt_Qlt 0 z) in H. exact H. Qed.

(** The rounded quotient, against an integer above the exact quotient. *)
Lemma rnd_up (N D T : Z) :
  0 <= N -> 0 < D -> N <= T * D -> rnd N D <= T.
Proof.
  intros HN HD HT.
  destruct (rnd_spec N D HN HD) as (Hcase & _ & _ & Hexact).
  pose proof (Z.div_mod N D ltac:(lia)) as E.
  pose proof (Z.mod_pos_bound N D HD) as Hr.
  assert (Hq : N / D <= T) by nia.
  destruct Hcase as [-> | Hc]; [exact Hq |].
  destruct (Z.eq_dec (N mod D) 0) as [Hz | Hz].
  - rewrite (Hexact Hz). exact Hq.
  - rewrite Hc. nia.
Qed.

Lemma rnd_down (N D T : Z) :
  0 <= N -> 0 < D -> T * D <= N -> T <= rnd N D.
Proof.
  intros HN HD HT.
  destruct (rnd_spec N D HN HD) as (Hcase & _ & _ & _).
  pose proof (Z.div_mod N D ltac:(lia)) as E.
  pose proof (Z.mod_pos_bound N D HD) as Hr.
  assert (Hq : T <= N / D) by nia.
  destruct Hcase as [-> | ->]; lia.
Qed.

(** The value of a rounding in the normal range: the result is a binary64
    number [R = M * 2 ^ E] next to the exact value [N / D * 2 ^ ex]. *)
Lemma binary_round_aux_value (sx : bool) (N D ex : Z) (lx : location) :
  0 <= N -> 0 < D ->
  shr_record_of_loc (N / D) lx = record_of N D ->
  53 <= Zdigits2 (N / D) ->
  -1074 <= Zdigits2 (N / D) + ex - 53 ->
  Zdigits2 (N / D) + ex <= 1023 ->
  exists M E,
    binary_round_aux 53 1024 sx (N / D) ex lx = S754_finite sx M E
    /\ Zpos (digits2_pos M) = 53
    /\ Zdigits2 (N / D) + ex - 53 <= E <= Zdigits2 (N / D) + ex - 52
    /\ (forall t : Z, t < 2 ^ 53 ->
          (inject_Z N * bpow ex <= inject_Z t * inject_Z D)%Q ->
          (inject_Z (Zpos M) * bpow E <= inject_Z t)%Q)
    /\ (forall t : Z, 0 <= t < 2 ^ 53 ->
          (inject_Z t * inject_Z D <= inject_Z N * bpow ex)%Q ->
          (inject_Z t <= inject_Z (Zpos M) * bpow E)%Q)
    /\ (inject_Z (Zpos M) * bpow E * inject_Z D * inject_Z (2 ^ 53)
        <= inject_Z N * bpow ex * inject_Z (2 ^ 53 + 1))%Q
    /\ (inject_Z N * bpow ex * inject_Z (2 ^ 53 - 1)
        <= inject_Z (Zpos M) * bpow E * inject_Z D * inject_Z (2 ^ 53))%Q
    /\ (N mod (D * 2 ^ (Zdigits2 (N / D) - 53)) = 0 ->
        (inject_Z (Zpos M) * bpow E * inject_Z D == inject_Z N * bpow ex)%Q).
Proof.
  intros HN HD Hrec Hd Hlo Hhi.
  destruct (binary_round_aux_normal sx N D ex lx HN HD Hrec Hd Hlo Hhi)
    as (M & E & Hres & HM & HE & Hval).
  exists M, E. split; [exact Hres |]. split; [exact HM |].
  set (d := Zdigits2 (N / D)) in *.
  set (n := d - 53) in *.
  set (e1 := ex + n) in *.
  set (D' := D * 2 ^ n) in *.
  set (m1 := rnd N D') in *.
  assert (Hp : 0 < 2 ^ n) by (apply Z.pow_pos_nonneg; lia).
  assert (HD' : 0 < D') by (unfold D'; nia).
  assert (Hq : 0 < N / D).
  { assert (0 <= N / D) by (apply Z.div_pos; lia).
    destruct (Z.eq_dec (N / D) 0) as [E0 | E0]; [| lia].
    unfold d in Hd. rewrite E0 in Hd. cbn in Hd. lia. }
  pose proof (Zdigits2_pos_bounds _ Hq) as Hdig. fold d in Hdig.
  pose proof (div_pow2_digits N D d HD Hd Hdig) as Hq'. fold n D' in Hq'.
  assert (HND' : 2 ^ 52 * D' <= N).
  { pose proof (Z.div_mod N D' ltac:(lia)).
    pose proof (Z.mod_pos_bound N D' HD'). nia. }
  destruct (rnd_spec N D' HN HD') as (Hcase & Hup & Hdn & Hexact).
  fold m1 in Hcase, Hup, Hdn, Hexact.
  assert (HE2 : E <= ex + n + 1).
  { destruct (Z_le_gt_dec E (e1 + 1)) as [Hle | Hgt]; [exact Hle |]. exfalso.
    assert (2 ^ 2 <= 2 ^ (E - e1)) by (apply Z.pow_le_mono_r; lia).
    change (2 ^ 2) with 4 in H.
    pose proof (Zdigits2_bounds M) as HMb. rewrite HM in HMb.
    change (2 ^ (53 - 1)) with (2 ^ 52) in HMb.
    assert (Hm : m1 <= 2 ^ 53) by lia.
    rewrite <- Hval in Hm. revert Hm H HMb.
    generalize (2 ^ (E - e1)). intros P. change (2 ^ 53) with (2 * 2 ^ 52).
    generalize (2 ^ 52). intros. nia. }
  split; [unfold e1, n in *; lia |].
  (* the result and the exact value, over the same power of two *)
  assert (HR : (inject_Z (Zpos M) * bpow E == inject_Z m1 * bpow e1)%Q).
  { replace E with ((E - e1) + e1) at 1 by lia.
    rewrite bpow_add, (bpow_Z (E - e1)) by lia.
    rewrite Qmult_assoc, <- inject_Z_mult, Hval. reflexivity. }
  assert (HDQ : (inject_Z D' * bpow ex == inject_Z D * bpow e1)%Q).
  { unfold e1, D'. rewrite bpow_add, inject_Z_mult, (bpow_Z n) by lia. ring. }
  pose proof (bpow_pos e1) as HB. pose proof (bpow_pos ex) as HBx.
  pose proof (inject_Z_pos _ HD') as HD'Q.
  pose proof (inject_Z_pos _ HD) as HDQ0.
  assert (HNQ : (0 <= inject_Z N)%Q) by (rewrite (Zle_Qle 0 N) in HN; exact HN).
  assert (Hlow : (inject_Z (2 ^ 52) * inject_Z D' <= inject_Z N)%Q).
  { rewrite <- inject_Z_mult, <- Zle_Qle. exact HND'. }
  assert (HBn : (bpow e1 == bpow ex * inject_Z (2 ^ n))%Q).
  { unfold e1. rewrite bpow_add, (bpow_Z n) by lia. reflexivity. }
  assert (HD'n : (inject_Z D' == inject_Z D * inject_Z (2 ^ n))%Q).
  { unfold D'. rewrite inject_Z_mult. reflexivity. }
  pose proof (inject_Z_pos _ Hp) as HpQ.
  assert (Hm1lo : 2 ^ 52 <= m1) by lia.
  assert (Hm1Q : (inject_Z (2 ^ 52) <= inject_Z m1)%Q)
    by (rewrite <- Zle_Qle; exact Hm1lo).
  assert (Hc53 : (inject_Z (2 ^ 53) == 2 * inject_Z (2 ^ 52))%Q) by reflexivity.
  assert (Hc52 : (0 < inject_Z (2 ^ 52))%Q) by reflexivity.
  (* below 2^53 the exponent of the result is not positive *)
  assert (Hsmall : forall K : Z, 0 < K -> (bpow e1 * inject_Z K == 1)%Q ->
            forall t : Z,
              ((inject_Z N * bpow e1 <= inject_Z t * inject_Z D')%Q ->
               (inject_Z m1 * bpow e1 <= inject_Z t)%Q)
              /\ ((inject_Z t * inject_Z D' <= inject_Z N * bpow e1)%Q ->
                  (inject_Z t <= inject_Z m1 * bpow e1)%Q)).
  { intros K HK HBK t. pose proof (inject_Z_pos _ HK) as HKQ. split; intros HX.
    - assert (Hz : N <= t * K * D').
      { rewrite Zle_Qle, !inject_Z_mult.
        generalize dependent (inject_Z N). generalize dependent (inject_Z D').
        generalize dependent (inject_Z K). generalize dependent (bpow e1).
        generalize (inject_Z t). intros. nra. }
      pose proof (rnd_up N D' (t * K) HN HD' Hz) as Hr. fold m1 in Hr.
      rewrite Zle_Qle, inject_Z_mult in Hr.
      generalize dependent (inject_Z m1). generalize dependent (inject_Z K).
      generalize dependent (bpow e1). generalize (inject_Z t). intros. nra.
    - assert (Hz : t * K * D' <= N).
      { rewrite Zle_Qle, !inject_Z_mult.
        generalize dependent (inject_Z N). generalize dependent (inject_Z D').
        generalize dependent (inject_Z K). generalize dependent (bpow e1).
        generalize (inject_Z t). intros. nra. }
      pose proof (rnd_down N D' (t * K) HN HD' Hz) as Hr. fold m1 in Hr.
      rewrite Zle_Qle, inject_Z_mult in Hr.
      generalize dependent (inject_Z m1). generalize dependent (inject_Z K).
      generalize dependent (bpow e1). generalize (inject_Z t). intros. nra. }
  split; [| split; [| split; [| split]]].
  - (* upper threshold *)
    intros t Ht HX. rewrite HR.
    assert (HX' : (inject_Z N * bpow e1 <= inject_Z t * inject_Z D')%Q).
    { rewrite HBn, HD'n. 
      generalize dependent (inject_Z N). generalize dependent (inject_Z D).
      generalize dependent (inject_Z (2 ^ n)). generalize dependent (bpow ex).
      generalize (inject_Z t). intros. nra. }
    destruct (Z_le_gt_dec e1 0) as [He1 | He1].
    + apply (Hsmall (2 ^ (- e1))); [apply Z.pow_pos_nonneg; lia | | exact HX'].
      rewrite <- (bpow_Z (- e1)), <- bpow_add by lia.
      replace (e1 + - e1) with 0 by lia. reflexivity.
    + exfalso.
      assert (HB2 : (2 <= bpow e1)%Q).
      { rewrite (bpow_Z e1) by lia. change 2%Q with (inject_Z 2).
        rewrite <- Zle_Qle. change 2 with (2 ^ 1) at 1.
        apply Z.pow_le_mono_r; lia. }
      assert (HtQ : (inject_Z t < inject_Z (2 ^ 53))%Q)
        by (rewrite <- Zlt_Qlt; exact Ht).
      rewrite Hc53 in HtQ.
      generalize dependent (inject_Z N). generalize dependent (inject_Z D').
      generalize dependent (bpow e1). generalize dependent (inject_Z (2 ^ 52)).
      generalize dependent (inject_Z t). intros. nra.
  - (* lower threshold *)
    intros t Ht HX. rewrite HR.
    assert (HX' : (inject_Z t * inject_Z D' <= inject_Z N * bpow e1)%Q).
    { rewrite HBn, HD'n. 
      generalize dependent (inject_Z N). generalize dependent (inject_Z D).
      generalize dependent (inject_Z (2 ^ n)). generalize dependent (bpow ex).
      generalize (inject_Z t). intros. nra. }
    destruct (Z_le_gt_dec e1 0) as [He1 | He1].
    + apply (Hsmall (2 ^ (- e1))); [apply Z.pow_pos_nonneg; lia | | exact HX'].
      rewrite <- (bpow_Z (- e1)), <- bpow_add by lia.
      replace (e1 + - e1) with 0 by lia. reflexivity.
    + assert (HB2 : (2 <= bpow e1)%Q).
      { rewrite (bpow_Z e1) by lia. change 2%Q with (inject_Z 2).
        rewrite <- Zle_Qle. change 2 with (2 ^ 1) at 1.
        apply Z.pow_le_mono_r; lia. }
      assert (HtQ : (inject_Z t < inject_Z (2 ^ 53))%Q)
        by (rewrite <- Zlt_Qlt; lia).
      rewrite Hc53 in HtQ.
      generalize dependent (inject_Z m1).
      generalize dependent (bpow e1). generalize dependent (inject_Z (2 ^ 52)).
      generalize dependent (inject_Z t). intros. nra.
  - (* relative error *)
    rewrite HR.
    assert (Hz : m1 * D' * 2 ^ 53 <= N * (2 ^ 53 + 1)).
    { clear - HND' Hup. replace (m1 * D' * 2 ^ 53) with (2 ^ 53 * (m1 * D')) by ring.
      generalize dependent (m1 * D'). intros P Hup.
      change (2 ^ 53) with 9007199254740992.
      change (2 ^ 52) with 4503599627370496 in HND'. lia. }
    rewrite Zle_Qle, !inject_Z_mult in Hz.
    assert (HDx : (inject_Z m1 * bpow e1 * inject_Z D
                   == inject_Z m1 * inject_Z D' * bpow ex)%Q).
    { rewrite HBn, HD'n. ring. }
    rewrite HDx.
    generalize dependent (inject_Z m1). generalize dependent (inject_Z N).
    generalize dependent (inject_Z D'). generalize dependent (bpow ex).
    generalize (inject_Z (2 ^ 53)) (inject_Z (2 ^ 53 + 1)). intros. nra.
  - (* relative error, from below *)
    rewrite HR.
    assert (Hz : N * (2 ^ 53 - 1) <= m1 * D' * 2 ^ 53).
    { clear - HND' Hdn. replace (m1 * D' * 2 ^ 53) with (2 ^ 53 * (m1 * D')) by ring.
      generalize dependent (m1 * D'). intros P Hdn.
      change (2 ^ 53) with 9007199254740992.
      change (2 ^ 52) with 4503599627370496 in HND'. lia. }
    rewrite Zle_Qle, !inject_Z_mult in Hz.
    assert (HDx : (inject_Z m1 * bpow e1 * inject_Z D
                   == inject_Z m1 * inject_Z D' * bpow ex)%Q).
    { rewrite HBn, HD'n. ring. }
    rewrite HDx.
    generalize dependent (inject_Z m1). generalize dependent (inject_Z N).
    generalize dependent (inject_Z D'). generalize dependent (bpow ex).
    generalize (inject_Z (2 ^ 53)) (inject_Z (2 ^ 53 - 1)). intros. nra.
  - (* exactness *)
    intros Hmod. rewrite HR.
    assert (Hz : m1 * D' = N).
    { rewrite (Hexact Hmod). pose proof (Z.div_mod N D' ltac:(lia)). lia. }
    assert (HDx : (inject_Z m1 * bpow e1 * inject_Z D
                   == inject_Z m1 * inject_Z D' * bpow ex)%Q).
    { rewrite HBn, HD'n. ring. }
    rewrite HDx, <- inject_Z_mult, Hz. reflexivity.
Qed.

(** A number between two powers of two has its digits between the
    exponents. *)
Lemma Zdigits2_range (m lo hi : Z) :
  0 < m -> 2 ^ lo <= m < 2 ^ hi -> 0 <= lo -> lo < Zdigits2 m <= hi.
Proof.
  intros Hm [Hlo Hhi] H0.
  pose proof (Zdigits2_pos_bounds m Hm) as [Dlo Dhi].
  assert (0 < Zdigits2 m) by (destruct m; cbn; lia).
  assert (0 <= hi).
  { destruct (Z_lt_le_dec hi 0) as [Hn | Hn]; [| exact Hn].
    rewrite Z.pow_neg_r in Hhi by exact Hn. lia. }
  split.
  - apply (Z.pow_lt_mono_r_iff 2); lia.
  - assert (Zdigits2 m - 1 < hi); [| lia].
    apply (Z.pow_lt_mono_r_iff 2); lia.
Qed.

Lemma Zdigits2_mul_pow2 (m s : Z) :
  0 < m -> 0 <= s -> Zdigits2 (m * 2 ^ s) = Zdigits2 m + s.
Proof.
  intros Hm Hs.
  pose proof (Zdigits2_pos_bounds m Hm) as [Dlo Dhi].
  assert (0 < Zdigits2 m) by (destruct m; cbn; lia).
  assert (Hp : 0 < 2 ^ s) by (apply Z.pow_pos_nonneg; lia).
  apply Zdigits2_pos_unique; [| nia].
  replace (Zdigits2 m + s - 1) with (Zdigits2 m - 1 + s) by lia.
  rewrite !Z.pow_add_r by lia. nia.
Qed.

(** The digits of a quotient. *)
Lemma Zdigits2_div (A B : Z) :
  0 < A -> 0 < B -> Zdigits2 B < Zdigits2 A ->
  Zdigits2 A - Zdigits2 B <= Zdigits2 (A / B) <= Zdigits2 A - Zdigits2 B + 1.
Proof.
  intros HA HB Hd.
  pose proof (Zdigits2_pos_bounds A HA) as [Alo Ahi].
  pose proof (Zdigits2_pos_bounds B HB) as [Blo Bhi].
  assert (0 < Zdigits2 B) by (destruct B; cbn; lia).
  set (a := Zdigits2 A) in *. set (b := Zdigits2 B) in *.
  assert (E1 : 2 ^ (a - 1) = 2 ^ (a - b - 1) * 2 ^ b).
  { rewrite <- Z.pow_add_r by lia. f_equal. lia. }
  assert (E2 : 2 ^ a = 2 ^ (a - b + 1) * 2 ^ (b - 1)).
  { rewrite <- Z.pow_add_r by lia. f_equal. lia. }
  assert (Hp1 : 0 < 2 ^ (a - b - 1)) by (apply Z.pow_pos_nonneg; lia).
  assert (Hp2 : 0 < 2 ^ (a - b + 1)) by (apply Z.pow_pos_nonneg; lia).
  assert (Hlo : 2 ^ (a - b - 1) <= A / B).
  { apply Z.div_le_lower_bound; [exact HB |]. nia. }
  assert (Hhi : A / B < 2 ^ (a - b + 1)).
  { apply Z.div_lt_upper_bound; [exact HB |]. nia. }
  assert (Hq : 0 < A / B) by lia.
  pose proof (Zdigits2_range (A / B) (a - b - 1) (a - b + 1) Hq
                (conj Hlo Hhi) ltac:(lia)).
  lia.
Qed.

(** The digits of a product. *)
Lemma Zdigits2_mul (A B : Z) :
  0 < A -> 0 < B ->
  Zdigits2 A + Zdigits2 B - 1 <= Zdigits2 (A * B) <= Zdigits2 A + Zdigits2 B.
Proof.
  intros HA HB.
  pose proof (Zdigits2_pos_bounds A HA) as [Alo Ahi].
  pose proof (Zdigits2_pos_bounds B HB) as [Blo Bhi].
  assert (0 < Zdigits2 A) by (destruct A; cbn; lia).
  assert (0 < Zdigits2 B) by (destruct B; cbn; lia).
  set (a := Zdigits2 A) in *. set (b := Zdigits2 B) in *.
  assert (E1 : 2 ^ (a + b - 2) = 2 ^ (a - 1) * 2 ^ (b - 1)).
  { rewrite <- Z.pow_add_r by lia. f_equal. lia. }
  assert (E2 : 2 ^ (a + b) = 2 ^ a * 2 ^ b).
  { rewrite <- Z.pow_add_r by lia. reflexivity. }
  assert (Hp1 : 0 < 2 ^ (a - 1)) by (apply Z.pow_pos_nonneg; lia).
  assert (Hp2 : 0 < 2 ^ (b - 1)) by (apply Z.pow_pos_nonneg; lia).
  assert (Hq : 0 < A * B) by nia.
  pose proof (Zdigits2_range (A * B) (a + b - 2) (a + b) Hq
                ltac:(split; nia) ltac:(lia)).
  lia.
Qed.


Lemma val_pos (M : positive) (E : Z) : (0 < val M E)%Q.
Proof.
  unfold val. pose proof (bpow_pos E).
  assert (0 < inject_Z (Zpos M))%Q by (apply inject_Z_pos; lia). nra.
Qed.


Lemma rounds_scale (R num den num' den' c : Q) :
  (0 < c)%Q -> (num' == num * c)%Q -> (den' == den * c)%Q ->
  rounds R num den -> rounds R num' den'.
Proof.
  intros Hc Hn Hd (Hup & Hdn & Hhi & Hlo). unfold rounds.
  repeat split.
  - intros t Ht H. apply (Hup t Ht). rewrite Hn, Hd in H.
    generalize dependent (inject_Z t). intros. nra.
  - intros t Ht H. apply (Hdn t Ht). rewrite Hn, Hd in H.
    generalize dependent (inject_Z t). intros. nra.
  - rewrite Hn, Hd.
    generalize dependent (inject_Z (2 ^ 53)).
    generalize dependent (inject_Z (2 ^ 53 + 1)). intros. nra.
  - rewrite Hn, Hd.
    generalize dependent (inject_Z (2 ^ 53)).
    generalize dependent (inject_Z (2 ^ 53 - 1)). intros. nra.
Qed.

(** Rounding a fraction in the normal range. *)
Lemma binary_round_aux_rounds (sx : bool) (N D ex : Z) (lx : location) :
  0 <= N -> 0 < D ->
  shr_record_of_loc (N / D) lx = record_of N D ->
  53 <= Zdigits2 (N / D) ->
  -1074 <= Zdigits2 (N / D) + ex - 53 ->
  Zdigits2 (N / D) + ex <= 1023 ->
  exists M E,
    binary_round_aux 53 1024 sx (N / D) ex lx = S754_finite sx M E
    /\ Zpos (digits2_pos M) = 53
    /\ Zdigits2 (N / D) + ex - 53 <= E <= Zdigits2 (N / D) + ex - 52
    /\ rounds (val M E) (inject_Z N * bpow ex) (inject_Z D).
Proof.
  intros HN HD Hrec Hd Hlo Hhi.
  destruct (binary_round_aux_value sx N D ex lx HN HD Hrec Hd Hlo Hhi)
    as (M & E & Hres & HM & HE & Hup & Hdn & Hehi & Helo & _).
  exists M, E. repeat split; try assumption; try lia.
Qed.

(** The product of two positive floats. *)
Lemma SFmul_rounds (m1 m2 : positive) (e1 e2 : Z) :
  53 <= Zdigits2 (Zpos (m1 * m2)) ->
  -1074 <= Zdigits2 (Zpos (m1 * m2)) + (e1 + e2) - 53 ->
  Zdigits2 (Zpos (m1 * m2)) + (e1 + e2) <= 1023 ->
  exists M E,
    SFmul 53 1024 (S754_finite false m1 e1) (S754_finite false m2 e2)
    = S754_finite false M E
    /\ Zpos (digits2_pos M) = 53
    /\ Zdigits2 (Zpos (m1 * m2)) + (e1 + e2) - 53 <= E
       <= Zdigits2 (Zpos (m1 * m2)) + (e1 + e2) - 52
    /\ rounds (val M E) (val m1 e1 * val m2 e2) 1%Q.
Proof.
  intros Hd Hlo Hhi.
  pose proof (binary_round_aux_rounds false (Zpos (m1 * m2)) 1 (e1 + e2)
                loc_Exact) as H.
  rewrite Z.div_1_r in H.
  destruct (H ltac:(lia) ltac:(lia) (exact_record _) Hd Hlo Hhi)
    as (M & E & Hres & HM & HE & Hr).
  exists M, E. cbn [SFmul xorb].
  split; [exact Hres | split; [exact HM | split; [lia |]]].
  eapply (rounds_scale _ _ _ _ _ 1%Q); [reflexivity | | | exact Hr].
  - unfold val. rewrite Pos2Z.inj_mul, inject_Z_mult, bpow_add. ring.
  - reflexivity.
Qed.

Lemma shiftl_match (m s : Z) :
  0 <= s ->
  match s with
  | 0 => m
  | Zpos _ => Z.shiftl m s
  | Zneg _ => 0
  end = m * 2 ^ s.
Proof.
  intros Hs. destruct s as [| p | p].
  - rewrite Z.pow_0_r. lia.
  - apply Z.shiftl_mul_pow2. lia.
  - lia.
Qed.

(** The quotient of two positive floats. *)
Lemma SFdiv_rounds (m1 m2 : positive) (e1 e2 : Z) :
  -1021 <= Zdigits2 (Zpos m1) + e1 - (Zdigits2 (Zpos m2) + e2) <= 1022 ->
  exists M E,
    SFdiv 53 1024 (S754_finite false m1 e1) (S754_finite false m2 e2)
    = S754_finite false M E
    /\ Zpos (digits2_pos M) = 53
    /\ Zdigits2 (Zpos m1) + e1 - (Zdigits2 (Zpos m2) + e2) - 53 <= E
       <= Zdigits2 (Zpos m1) + e1 - (Zdigits2 (Zpos m2) + e2) - 51
    /\ rounds (val M E) (val m1 e1) (val m2 e2).
Proof.
  intros Hx.
  set (d1 := Zdigits2 (Zpos m1)) in *. set (d2 := Zdigits2 (Zpos m2)) in *.
  assert (Hd1 : 0 < d1) by (unfold d1; cbn; lia).
  assert (Hd2 : 0 < d2) by (unfold d2; cbn; lia).
  unfold SFdiv, SFdiv_core_binary. fold d1 d2.
  replace (d1 + e1 - (d2 + e2)) with (d1 + e1 - (d2 + e2)) by reflexivity.
  rewrite fexp_normal by lia.
  set (e' := Z.min (d1 + e1 - (d2 + e2) - 53) (e1 - e2)).
  set (s := e1 - e2 - e').
  assert (Hs : 0 <= s) by (unfold s, e'; lia).
  set (m' := match s with
             | 0 => Zpos m1
             | Zpos _ => Z.shiftl (Zpos m1) s
             | Zneg _ => 0
             end).
  assert (Hm' : m' = Zpos m1 * 2 ^ s).
  { unfold m'. apply shiftl_match, Hs. }
  assert (Hp : 0 < 2 ^ s) by (apply Z.pow_pos_nonneg; lia).
  assert (Hm'pos : 0 < m') by (rewrite Hm'; nia).
  assert (Hdm' : Zdigits2 m' = d1 + s).
  { rewrite Hm'. apply Zdigits2_mul_pow2; lia. }
  destruct (Z.div_eucl m' (Zpos m2)) as [q r] eqn:Hde.
  assert (Hq : q = m' / Zpos m2) by (unfold Z.div; rewrite Hde; reflexivity).
  assert (Hr : r = m' mod Zpos m2)
    by (unfold Z.modulo; rewrite Hde; reflexivity).
  subst q r.
  pose proof (Zdigits2_div m' (Zpos m2) Hm'pos ltac:(lia)) as Hdq.
  fold d2 in Hdq. rewrite Hdm' in Hdq.
  specialize (Hdq ltac:(unfold s, e'; lia)).
  destruct (binary_round_aux_rounds false m' (Zpos m2) e'
              (new_location (Zpos m2) (m' mod Zpos m2))
              ltac:(lia) ltac:(lia)
              (new_location_record m' (Zpos m2) ltac:(lia) ltac:(lia))
              ltac:(unfold s, e' in *; lia)
              ltac:(unfold s, e' in *; lia)
              ltac:(unfold s, e' in *; lia))
    as (M & E & Hres & HM & HE & Hrd).
  exists M, E. cbn [xorb].
  split; [exact Hres | split; [exact HM | split; [unfold s, e' in *; lia |]]].
  eapply (rounds_scale _ _ _ _ _ (bpow e2)); [apply bpow_pos | | | exact Hrd].
  - unfold val. rewrite Hm', inject_Z_mult, <- (bpow_Z s) by lia.
    replace e1 with (s + e' + e2) at 1 by (unfold s; lia).
    rewrite !bpow_add. ring.
  - reflexivity.
Qed.

End Rounding.

(** ** The float operations of the runtime *)

Section FloatOperations.
Import Py.
Import Binary64.

(** A float with a negative exponent, cleared of its denominator. *)
Lemma val_neg_exponent (M : positive) (E : Z) :
  E < 0 -> (val M E * inject_Z (2 ^ (- E)) == inject_Z (Zpos M))%Q.
Proof.
  intros HE. unfold val. rewrite <- bpow_Z by lia.
  rewrite <- Qmult_assoc, <- bpow_add.
  replace (E + - E) with 0 by lia. change (bpow 0) with 1%Q. ring.
Qed.

Lemma val_nonneg_exponent (M : positive) (E : Z) :
  0 <= E -> (val M E == inject_Z (Zpos M * 2 ^ E))%Q.
Proof.
  intros HE. unfold val. rewrite bpow_Z by exact HE.
  rewrite inject_Z_mult. reflexivity.
Qed.

(** [math.ceil] of a positive float: the least integer not below it. *)
Lemma ceil_of_float_finite (M : positive) (E : Z) :
  exists c,
    ceil_of_float (S754_finite false M E) = Ok c
    /\ (inject_Z c - 1 < val M E)%Q /\ (val M E <= inject_Z c)%Q.
Proof.
  unfold ceil_of_float. destruct (0 <=? E) eqn:HE.
  - apply Z.leb_le in HE. eexists. split; [reflexivity |].
    rewrite (val_nonneg_exponent M E HE). lra.
  - apply Z.leb_gt in HE. eexists. split; [reflexivity |].
    pose proof (val_neg_exponent M E HE) as Hv.
    assert (HP : 0 < 2 ^ (- E)) by (apply Z.pow_pos_nonneg; lia).
    set (P := 2 ^ (- E)) in *.
    pose proof (Z.div_mod (- Zpos M) P ltac:(lia)) as Hdm.
    pose proof (Z.mod_pos_bound (- Zpos M) P HP) as Hr.
    set (c := - (- Zpos M / P)) in *.
    assert (H1 : c * P < Zpos M + P) by (unfold c; nia).
    assert (H2 : Zpos M <= c * P) by (unfold c; nia).
    rewrite Zlt_Qlt in H1. rewrite Zle_Qle in H2.
    rewrite inject_Z_plus, inject_Z_mult in H1. rewrite inject_Z_mult in H2.
    apply inject_Z_pos in HP.
    generalize dependent (inject_Z P). generalize dependent (inject_Z (Zpos M)).
    generalize dependent (inject_Z c). generalize dependent (val M E).
    intros. split; nra.
Qed.

(** [int()] of a positive float: the greatest integer not above it. *)
Lemma int_of_float_finite (M : positive) (E : Z) :
  exists t,
    int_of_float (S754_finite false M E) = Ok t
    /\ 0 <= t
    /\ (inject_Z t <= val M E)%Q /\ (val M E < inject_Z t + 1)%Q.
Proof.
  unfold int_of_float. destruct (0 <=? E) eqn:HE.
  - apply Z.leb_le in HE. eexists. split; [reflexivity |].
    split; [apply Z.mul_nonneg_nonneg; [lia | apply Z.pow_nonneg; lia] |].
    rewrite (val_nonneg_exponent M E HE). lra.
  - apply Z.leb_gt in HE. eexists. split; [reflexivity |].
    pose proof (val_neg_exponent M E HE) as Hv.
    assert (HP : 0 < 2 ^ (- E)) by (apply Z.pow_pos_nonneg; lia).
    set (P := 2 ^ (- E)) in *.
    pose proof (Z.div_mod (Zpos M) P ltac:(lia)) as Hdm.
    pose proof (Z.mod_pos_bound (Zpos M) P HP) as Hr.
    set (t := Zpos M / P) in *.
    split; [unfold t; apply Z.div_pos; lia |].
    assert (H1 : t * P <= Zpos M) by nia.
    assert (H2 : Zpos M < t * P + P) by nia.
    rewrite Zle_Qle in H1. rewrite Zlt_Qlt in H2.
    rewrite inject_Z_mult in H1. rewrite inject_Z_plus, inject_Z_mult in H2.
    apply inject_Z_pos in HP.
    generalize dependent (inject_Z P). generalize dependent (inject_Z (Zpos M)).
    generalize dependent (inject_Z t). generalize dependent (val M E).
    intros. split; nra.
Qed.

(** [f > z] for a positive float and an integer. *)
Lemma gt_int_finite (M : positive) (E z : Z) :
  gt_int (Float (S754_finite false M E)) z = true
  <-> (inject_Z z < val M E)%Q.
Proof.
  unfold gt_int, float_compare_int. destruct (0 <=? E) eqn:HE.
  - apply Z.leb_le in HE. rewrite (val_nonneg_exponent M E HE).
    rewrite <- Zlt_Qlt.
    destruct (Z.compare_spec (Zpos M * 2 ^ E) z); split; intros; 
      first [ lia | discriminate | reflexivity ].
  - apply Z.leb_gt in HE.
    pose proof (val_neg_exponent M E HE) as Hv.
    assert (HP : 0 < 2 ^ (- E)) by (apply Z.pow_pos_nonneg; lia).
    set (P := 2 ^ (- E)) in *.
    assert (Hq : (inject_Z z < val M E)%Q <-> z * P < Zpos M).
    { rewrite Zlt_Qlt, inject_Z_mult.
      apply inject_Z_pos in HP.
      generalize dependent (inject_Z P).
      generalize dependent (inject_Z (Zpos M)).
      generalize dependent (inject_Z z). generalize dependent (val M E).
      intros. split; intros; nra. }
    rewrite Hq.
    destruct (Z.compare_spec (Zpos M) (z * P)); split; intros;
      first [ lia | discriminate | reflexivity ].
Qed.

Lemma iter_xO (p k : positive) :
  Zpos (Pos.iter xO p k) = Zpos p * 2 ^ Zpos k.
Proof.
  induction k as [| k IH] using Pos.peano_ind.
  - cbn [Pos.iter]. rewrite Z.pow_1_r. lia.
  - rewrite Pos.iter_succ, Pos2Z.inj_xO, IH, Pos2Z.inj_succ.
    rewrite Z.pow_succ_r by lia. lia.
Qed.

(** A number of 53 digits in range is its own rounding. *)
Lemma binary_round_aux_exact (s : bool) (m : positive) (e : Z) :
  Zpos (digits2_pos m) = 53 -> -1074 <= e -> e + 53 <= 1023 ->
  exists M E,
    binary_round_aux 53 1024 s (Zpos m) e loc_Exact = S754_finite s M E
    /\ Zpos (digits2_pos M) = 53
    /\ e <= E <= e + 1
    /\ (val M E == val m e)%Q.
Proof.
  intros Hd Hlo Hhi.
  pose proof (binary_round_aux_value s (Zpos m) 1 e loc_Exact) as H.
  rewrite Z.div_1_r in H. cbn [Zdigits2] in H. rewrite Hd in H.
  destruct (H ltac:(lia) ltac:(lia) (exact_record _) ltac:(lia) ltac:(lia)
              ltac:(lia))
    as (M & E & Hres & HM & HE & _ & _ & _ & _ & Hexact).
  exists M, E. split; [exact Hres |]. split; [exact HM |]. split; [lia |].
  unfold val. rewrite <- Hexact.
  - change (inject_Z 1) with 1%Q. ring.
  - replace (53 - 53) with 0 by lia. rewrite Z.pow_0_r, Z.mul_1_l.
    apply Z.mod_1_r.
Qed.

(** [float(z)] is exact below [2 ^ 53]. *)
Lemma float_of_int_exact (z : Z) :
  0 < z < 2 ^ 53 ->
  exists M E,
    float_of_int z = Ok (S754_finite false M E)
    /\ Zpos (digits2_pos M) = 53
    /\ Zdigits2 z - 53 <= E <= Zdigits2 z - 52
    /\ (val M E == inject_Z z)%Q.
Proof.
  intros Hz. destruct z as [| p | p]; try lia.
  unfold float_of_int, binary_normalize, binary_round, prec, emax.
  pose proof (Zdigits2_bounds p) as Hb. cbn [Zdigits2].
  set (d := Zpos (digits2_pos p)) in *.
  assert (Hd0 : 0 < d) by (unfold d; lia).
  assert (Hd : d <= 53).
  { assert (d - 1 < 53); [| lia]. apply (Z.pow_lt_mono_r_iff 2); lia. }
  rewrite fexp_normal by lia. unfold shl_align.
  destruct (d + 0 - 53 - 0) as [| q | q] eqn:Hk; try lia.
  - assert (Hd53 : d = 53) by lia.
    destruct (binary_round_aux_exact false p 0 Hd53 ltac:(lia) ltac:(lia))
      as (M & E & -> & HM & HE & Hv).
    exists M, E. split; [reflexivity |]. split; [exact HM |].
    split; [lia |]. rewrite Hv. unfold val. change (bpow 0) with 1%Q. ring.
  - pose proof (iter_xO p q) as Hiter.
    assert (Hq : Zpos q = 53 - d) by lia.
    assert (Hdig : Zpos (digits2_pos (Pos.iter xO p q)) = 53).
    { apply Zdigits2_unique. rewrite Hiter, Hq.
      assert (E1 : 2 ^ (53 - 1) = 2 ^ (d - 1) * 2 ^ (53 - d)).
      { rewrite <- Z.pow_add_r by lia. f_equal. lia. }
      assert (E2 : 2 ^ 53 = 2 ^ d * 2 ^ (53 - d)).
      { rewrite <- Z.pow_add_r by lia. f_equal. lia. }
      rewrite E1, E2.
      assert (0 < 2 ^ (53 - d)) by (apply Z.pow_pos_nonneg; lia).
      split; [apply Z.mul_le_mono_nonneg_r | apply Z.mul_lt_mono_pos_r]; lia. }
    destruct (binary_round_aux_exact false (Pos.iter xO p q) (d + 0 - 53) Hdig
                ltac:(lia) ltac:(lia))
      as (M & E & -> & HM & HE & Hv).
    exists M, E. split; [reflexivity |]. split; [exact HM |].
    split; [lia |]. rewrite Hv. unfold val. rewrite Hiter, inject_Z_mult.
    rewrite <- bpow_Z by lia. rewrite <- Qmult_assoc, <- bpow_add.
    replace (Zpos q + (d + 0 - 53)) with 0 by lia.
    change (bpow 0) with 1%Q. ring.
Qed.

(** [a / b] on positive integers: the correctly rounded quotient. *)
Lemma int_truediv_rounds (a b : Z) :
  0 < a -> 0 < b ->
  -1021 <= Zdigits2 a - Zdigits2 b <= 1022 ->
  exists M E,
    int_truediv a b = Ok (S754_finite false M E)
    /\ Zpos (digits2_pos M) = 53
    /\ Zdigits2 a - Zdigits2 b - 53 <= E <= Zdigits2 a - Zdigits2 b - 51
    /\ rounds (val M E) (inject_Z a) (inject_Z b).
Proof.
  intros Ha Hb Hx. destruct a as [| p | p]; try lia.
  destruct b as [| q | q]; try lia.
  unfold int_truediv, prec, emax. cbn [Z.eqb exact_of_int].
  destruct (SFdiv_rounds p q 0 0 ltac:(lia)) as (M & E & -> & HM & HE & Hr).
  exists M, E. split; [reflexivity |]. split; [exact HM |]. split; [lia |].
  eapply (rounds_scale _ _ _ _ _ 1%Q); [reflexivity | | | exact Hr];
    unfold val; change (bpow 0) with 1%Q; ring.
Qed.

(** Two positive floats are equal only if they are the same number. *)
Lemma float_ne_false (M1 M2 : positive) (E1 E2 : Z) :
  float_ne (S754_finite false M1 E1) (S754_finite false M2 E2) = false ->
  M1 = M2 /\ E1 = E2.
Proof.
  unfold float_ne, SFeqb, SFcompare. destruct (Z.compare_spec E1 E2);
    try discriminate.
  destruct (Pos.compare_cont Eq M1 M2) eqn:Hc; try discriminate.
  intros _. split; [apply Pos.compare_eq, Hc | assumption].
Qed.

End FloatOperations.

Section Stream.
Import Py Ffmpeg Examples.
Import Binary64.

Lemma Zle_of_Qle (a b : Z) : (inject_Z a <= inject_Z b)%Q -> a <= b.
Proof. intros H. rewrite Zle_Qle. exact H. Qed.

Lemma Zle_of_Qlt_succ (a b : Z) : (inject_Z a < inject_Z b + 1)%Q -> a <= b.
Proof.
  intros H. change 1%Q with (inject_Z 1) in H.
  rewrite <- inject_Z_plus, <- Zlt_Qlt in H. lia.
Qed.

Lemma Zdigits2_le (m n : Z) : 0 < m -> m < 2 ^ n -> Zdigits2 m <= n.
Proof.
  intros Hm Hn. pose proof (Zdigits2_pos_bounds m Hm) as [Hlo _].
  assert (0 < Zdigits2 m) by (destruct m; cbn; lia).
  assert (0 <= n).
  { destruct (Z_lt_le_dec n 0) as [Hneg | Hnn]; [| exact Hnn].
    rewrite Z.pow_neg_r in Hn by exact Hneg. lia. }
  assert (Zdigits2 m - 1 < n); [| lia].
  apply (Z.pow_lt_mono_r_iff 2); lia.
Qed.

(** For a dimension from 0 to [2 ^ 53], [math.ceil(d / 2) * 2] is [d]
    rounded up to an even number. *)
Lemma even_dimension_value (d : Z) :
  0 <= d <= 2 ^ 53 ->
  even_dimension d = Ok (2 * ((d + 1) / 2)).
Proof.
  intros Hd. destruct (Z.eq_dec d 0) as [-> | Hnz]; [reflexivity |].
  assert (Hdig : Zdigits2 d <= 54) by (apply Zdigits2_le; lia).
  assert (Hdig0 : 0 < Zdigits2 d) by (destruct d; cbn; lia).
  destruct (int_truediv_rounds d 2 ltac:(lia) ltac:(lia)
              ltac:(change (Zdigits2 2) with 2; lia))
    as (M & E & Hdiv & _ & _ & Hup & Hdn & _ & Hlo).
  destruct (ceil_of_float_finite M E) as (c & Hceil & Hc1 & Hc2).
  unfold even_dimension. rewrite Hdiv. cbn [bind ceil]. rewrite Hceil.
  cbn [bind]. f_equal.
  set (k := (d + 1) / 2).
  assert (Hk : d = 2 * k \/ d = 2 * k - 1).
  { unfold k. pose proof (Z.div_mod (d + 1) 2 ltac:(lia)).
    pose proof (Z.mod_pos_bound (d + 1) 2 ltac:(lia)). lia. }
  assert (Hv : (val M E <= inject_Z k)%Q).
  { apply Hup; [lia |]. rewrite <- inject_Z_mult, <- Zle_Qle. lia. }
  assert (Hck : k <= c).
  { destruct Hk as [Hk | Hk].
    - apply Zle_of_Qle. 
      assert (inject_Z k <= val M E)%Q; [| lra].
      apply Hdn; [lia |]. rewrite <- inject_Z_mult, <- Zle_Qle. lia.
    - assert (Hd' : d <= 2 ^ 53 - 1).
      { assert (d <> 2 ^ 53); [| lia]. intros Heq.
        change (2 ^ 53) with (2 * 2 ^ 52) in Heq. lia. }
      apply Zle_of_Qlt_succ.
      assert (Hq : (inject_Z d == 2 * inject_Z k - 1)%Q).
      { rewrite Hk at 1. unfold Z.sub.
        rewrite inject_Z_plus, inject_Z_mult. reflexivity. }
      rewrite Zle_Qle in Hd'.
      change (inject_Z (2 ^ 53 - 1)) with (9007199254740991 # 1)%Q in *.
      change (inject_Z (2 ^ 53)) with (9007199254740992 # 1)%Q in *.
      change (inject_Z 2) with (2 # 1)%Q in *.
      generalize dependent (inject_Z d). generalize dependent (inject_Z k).
      generalize dependent (inject_Z c). generalize dependent (val M E).
      intros. lra. }
  assert (Hkc : c <= k) by (apply Zle_of_Qlt_succ; lra).
  lia.
Qed.

End Stream.

Section MixedOperations.
Import Py.
Import Binary64.

Lemma rounds_num (R num num' den : Q) :
  (num' == num)%Q -> rounds R num den -> rounds R num' den.
Proof.
  intros Hn Hr. eapply (rounds_scale _ _ _ _ _ 1%Q); [reflexivity | | | exact Hr].
  - rewrite Hn. ring.
  - ring.
Qed.

(** [m / a] for an integer and a float of moderate size. *)
Lemma truediv_int_float (m : Z) (Ma : positive) (Ea : Z) :
  0 < m < 2 ^ 53 ->
  Zpos (digits2_pos Ma) = 53 -> -200 <= Ea <= 200 ->
  exists M E,
    truediv (Int m) (Float (S754_finite false Ma Ea))
    = Ok (S754_finite false M E)
    /\ rounds (val M E) (inject_Z m) (val Ma Ea).
Proof.
  intros Hm HMa HEa.
  destruct (float_of_int_exact m Hm) as (Mm & Em & Hf & HMm & HEm & Hv).
  assert (Hdm : 0 < Zdigits2 m <= 53).
  { split; [destruct m; cbn; lia | apply Zdigits2_le; lia]. }
  destruct (SFdiv_rounds Mm Ma Em Ea) as (M & E & Hdiv & _ & _ & Hr).
  { cbn [Zdigits2]. rewrite HMm, HMa. lia. }
  exists M, E. split.
  - unfold truediv. cbn [to_float]. rewrite Hf. cbn [bind].
    unfold float_truediv. cbn [float_is_zero]. unfold prec, emax.
    rewrite Hdiv. reflexivity.
  - apply (rounds_num _ (val Mm Em)); [symmetry; exact Hv | exact Hr].
Qed.

(** [n * a] for an integer and a float of moderate size. *)
Lemma mul_int_float (n : Z) (Ma : positive) (Ea : Z) :
  0 < n < 2 ^ 53 ->
  Zpos (digits2_pos Ma) = 53 -> -200 <= Ea <= 200 ->
  exists M E,
    mul (Int n) (Float (S754_finite false Ma Ea))
    = Ok (Float (S754_finite false M E))
    /\ rounds (val M E) (inject_Z n * val Ma Ea) 1%Q.
Proof.
  intros Hn HMa HEa.
  destruct (float_of_int_exact n Hn) as (Mn & En & Hf & HMn & HEn & Hv).
  assert (Hdn : 0 < Zdigits2 n <= 53).
  { split; [destruct n; cbn; lia | apply Zdigits2_le; lia]. }
  pose proof (Zdigits2_mul (Zpos Mn) (Zpos Ma) ltac:(lia) ltac:(lia)) as Hdp.
  change (Zpos Mn * Zpos Ma) with (Zpos (Mn * Ma)) in Hdp.
  change (Zdigits2 (Zpos Mn)) with (Zpos (digits2_pos Mn)) in Hdp.
  change (Zdigits2 (Zpos Ma)) with (Zpos (digits2_pos Ma)) in Hdp.
  rewrite HMn, HMa in Hdp.
  destruct (SFmul_rounds Mn Ma En Ea ltac:(lia) ltac:(lia) ltac:(lia))
    as (M & E & Hmul & _ & _ & Hr).
  exists M, E. split.
  - unfold mul. cbn [to_float]. rewrite Hf. cbn [bind].
    unfold float_mul, prec, emax. rewrite Hmul. reflexivity.
  - apply (rounds_num _ (val Mn En * val Ma Ea)); [| exact Hr].
    rewrite Hv. reflexivity.
Qed.

End MixedOperations.

(** ** The sizes the launchers compute *)

Section Scaling.
Import Binary64.

(** The height computed under a width bound does not exceed the source
    height. *)
Lemma scaled_height_le (A R : Q) (w h m : Z) :
  0 < m < w -> w < 2 ^ 53 -> 0 < h < 2 ^ 53 ->
  rounds A (inject_Z w) (inject_Z h) ->
  rounds R (inject_Z m) A ->
  (R <= inject_Z h)%Q.
Proof.
  intros Hm Hw Hh (_ & _ & _ & HloA) (HupR & _).
  apply HupR; [lia |].
  assert (H1 : m <= w - 1) by lia. assert (H2 : w <= 2 ^ 53) by lia.
  rewrite Zle_Qle in H1, H2. unfold Z.sub in H1.
  rewrite inject_Z_plus in H1.
  change (inject_Z (2 ^ 53 - 1)) with (9007199254740991 # 1)%Q in *.
  change (inject_Z (2 ^ 53)) with (9007199254740992 # 1)%Q in *.
  change (inject_Z (- (1))) with (- (1))%Q in *.
  rewrite (Qmult_comm (inject_Z h) A).
  generalize dependent (A * inject_Z h)%Q.
  generalize dependent (inject_Z m). generalize dependent (inject_Z w).
  intros. lra.
Qed.

(** The width computed under a height bound does not exceed the source
    width. *)
Lemma scaled_width_le (A R : Q) (w h n : Z) :
  (0 < A)%Q -> 0 < w < 2 ^ 53 -> 0 < n < h -> h < 2 ^ 53 ->
  rounds A (inject_Z w) (inject_Z h) ->
  rounds R (inject_Z n * A) 1 ->
  (R <= inject_Z w)%Q.
Proof.
  intros HA Hw Hn Hh (_ & _ & HhiA & _) (HupR & _).
  apply HupR; [lia |].
  assert (H1 : n <= h - 1) by lia. assert (H2 : h <= 2 ^ 53 - 1) by lia.
  assert (H3 : 0 < n) by lia.
  rewrite Zle_Qle in H1, H2. rewrite Zlt_Qlt in H3. unfold Z.sub in H1.
  rewrite inject_Z_plus in H1.
  change (inject_Z (2 ^ 53 + 1)) with (9007199254740993 # 1)%Q in *.
  change (inject_Z (2 ^ 53 + - (1))) with (9007199254740991 # 1)%Q in *.
  change (inject_Z (2 ^ 53 - 1)) with (9007199254740991 # 1)%Q in *.
  change (inject_Z (2 ^ 53)) with (9007199254740992 # 1)%Q in *.
  change (inject_Z (- (1))) with (- (1))%Q in *.
  change (inject_Z 0) with 0%Q in *.
  generalize dependent (inject_Z n). generalize dependent (inject_Z w).
  generalize dependent (inject_Z h).
  intros. nra.
Qed.

(** Under both bounds: when the height computed under the width bound
    exceeds the height bound, the width computed under the height bound
    does not exceed the width bound. *)
Lemma rescaled_width_le (A Rh Rw : Q) (m n : Z) :
  m < 2 ^ 53 -> 0 <= n < 2 ^ 53 ->
  rounds Rh (inject_Z m) A ->
  (inject_Z n < Rh)%Q ->
  rounds Rw (inject_Z n * A) 1 ->
  (Rw <= inject_Z m)%Q.
Proof.
  intros Hm Hn (HupRh & _) Hgt (HupRw & _).
  destruct (Qlt_le_dec (inject_Z m) (inject_Z n * A)) as [Hlt | Hle].
  - exfalso. apply Qlt_le_weak in Hlt. apply (HupRh n) in Hlt; [lra | lia].
  - apply HupRw; [lia | lra].
Qed.

End Scaling.

Section Screenshot.
Import Py Ffmpeg Examples.
Import Binary64.

Lemma defaulted_int (n source : Z) :
  n <> 0 -> defaulted (Some (Int n)) source = Ok n.
Proof.
  intros Hn. unfold defaulted. cbn [truthy num_truthy int].
  apply Z.eqb_neq in Hn. rewrite Hn. reflexivity.
Qed.

Lemma defaulted_float (M : positive) (E source : Z) :
  defaulted (Some (Float (S754_finite false M E))) source
  = int_of_float (S754_finite false M E).
Proof. reflexivity. Qed.

(** The second step of the size computation, from the source size. *)
Lemma height_step_ints (w h : Z) (Ma : positive) (Ea : Z) (mh : option Z) :
  0 < w < 2 ^ 53 -> 0 < h < 2 ^ 53 ->
  Zpos (digits2_pos Ma) = 53 -> -200 <= Ea <= 200 ->
  rounds (val Ma Ea) (inject_Z w) (inject_Z h) ->
  (forall n, mh = Some n -> 0 <= n < 2 ^ 53) ->
  exists ow oh w' h',
    match mh with
    | Some mh0 =>
        if negb (mh0 =? 0) && gt_int (snd (Int w, Int h)) mh0
        then
          w0 <- mul (Int mh0) (Float (S754_finite false Ma Ea)) ;;
          Ok (w0, Int mh0)
        else Ok (Int w, Int h)
    | None => Ok (Int w, Int h)
    end = Ok (ow, oh)
    /\ defaulted (Some ow) w = Ok w'
    /\ defaulted (Some oh) h = Ok h'
    /\ 0 <= w' <= w /\ 0 <= h' <= h
    /\ (forall n, mh = Some n -> n <> 0 -> h' <= n)
    /\ ((forall n, mh = Some n -> n = 0 \/ h <= n) -> w' = w /\ h' = h).
Proof.
  intros Hw Hh HMa HEa Hra Hmh.
  assert (Hsame : exists ow oh w' h',
             Ok (Int w, Int h) = Ok (ow, oh)
             /\ defaulted (Some ow) w = Ok w'
             /\ defaulted (Some oh) h = Ok h'
             /\ 0 <= w' <= w /\ 0 <= h' <= h /\ w' = w /\ h' = h).
  { exists (Int w), (Int h), w, h.
    rewrite !defaulted_int by lia. split_all; try reflexivity; lia. }
  destruct mh as [n |].
  - specialize (Hmh n eq_refl). cbn [snd gt_int].
    destruct (n =? 0) eqn:Hn0; cbn [negb andb].
    + apply Z.eqb_eq in Hn0.
      destruct Hsame
        as (ow & oh & w' & h' & E & Hdw & Hdh & Hbw & Hbh & Ew & Eh).
      exists ow, oh, w', h'. split_all; try assumption; try reflexivity; try lia.
      intros n' [= <-] Hne. lia.
    + apply Z.eqb_neq in Hn0. destruct (n <? h) eqn:Hlt.
      * apply Z.ltb_lt in Hlt.
        destruct (mul_int_float n Ma Ea ltac:(lia) HMa HEa)
          as (M & E & Hmul & Hr).
        destruct (int_of_float_finite M E) as (t & Ht & Ht0 & Htlo & _).
        rewrite Hmul. cbn [bind].
        exists (Float (S754_finite false M E)), (Int n), t, n.
        rewrite defaulted_float, defaulted_int by lia.
        pose proof (scaled_width_le _ _ w h n (val_pos Ma Ea) Hw
                      ltac:(lia) ltac:(lia) Hra Hr) as Hle.
        assert (t <= w) by (apply Zle_of_Qle; lra).
        split_all; try assumption; try reflexivity; try lia.
        -- intros n' [= <-] _. lia.
        -- intros Hin. specialize (Hin n eq_refl). exfalso. lia.
      * apply Z.ltb_ge in Hlt.
        destruct Hsame
          as (ow & oh & w' & h' & E & Hdw & Hdh & Hbw & Hbh & Ew & Eh).
        exists ow, oh, w', h'. split_all; try assumption; try reflexivity; try lia.
        intros n' [= <-] _. lia.
  - destruct Hsame
      as (ow & oh & w' & h' & E & Hdw & Hdh & Hbw & Hbh & Ew & Eh).
    exists ow, oh, w', h'. split_all; try assumption; try reflexivity; try lia.
    intros n' [=].
Qed.

(** The second step of the size computation, from the size computed under
    the width bound [m]. *)
Lemma height_step_scaled (w h m : Z) (Ma Mh : positive) (Ea Eh : Z)
    (mh : option Z) :
  0 < w < 2 ^ 53 -> 0 < h < 2 ^ 53 -> 0 < m < w ->
  Zpos (digits2_pos Ma) = 53 -> -200 <= Ea <= 200 ->
  rounds (val Ma Ea) (inject_Z w) (inject_Z h) ->
  rounds (val Mh Eh) (inject_Z m) (val Ma Ea) ->
  (forall n, mh = Some n -> 0 <= n < 2 ^ 53) ->
  exists ow oh w' h',
    match mh with
    | Some mh0 =>
        if negb (mh0 =? 0)
           && gt_int (snd (Int m, Float (S754_finite false Mh Eh))) mh0
        then
          w0 <- mul (Int mh0) (Float (S754_finite false Ma Ea)) ;;
          Ok (w0, Int mh0)
        else Ok (Int m, Float (S754_finite false Mh Eh))
    | None => Ok (Int m, Float (S754_finite false Mh Eh))
    end = Ok (ow, oh)
    /\ defaulted (Some ow) w = Ok w'
    /\ defaulted (Some oh) h = Ok h'
    /\ 0 <= w' <= m /\ 0 <= h' <= h
    /\ (forall n, mh = Some n -> n <> 0 -> h' <= n).
Proof.
  intros Hw Hh Hm HMa HEa Hra Hrh Hmh.
  pose proof (scaled_height_le _ _ w h m Hm ltac:(lia) Hh Hra Hrh) as Hhle.
  destruct (int_of_float_finite Mh Eh) as (th & Hth & Hth0 & Hthlo & Hthhi).
  assert (Hthh : th <= h) by (apply Zle_of_Qle; lra).
  assert (Hkeep : forall bound : Z -> Prop,
             (forall n, bound n -> (val Mh Eh <= inject_Z n)%Q) ->
             exists ow oh w' h',
               Ok (Int m, Float (S754_finite false Mh Eh)) = Ok (ow, oh)
               /\ defaulted (Some ow) w = Ok w'
               /\ defaulted (Some oh) h = Ok h'
               /\ 0 <= w' <= m /\ 0 <= h' <= h
               /\ (forall n, bound n -> h' <= n)).
  { intros bound Hb.
    exists (Int m), (Float (S754_finite false Mh Eh)), m, th.
    rewrite defaulted_float, defaulted_int by lia.
    split_all; try assumption; try reflexivity; try lia.
    intros n Hn. apply Zle_of_Qle. specialize (Hb n Hn). lra. }
  destruct mh as [n |].
  - specialize (Hmh n eq_refl). cbn [snd].
    destruct (n =? 0) eqn:Hn0; cbn [negb andb].
    + apply Z.eqb_eq in Hn0.
      destruct (Hkeep (fun _ => False) ltac:(intros ? []))
        as (ow & oh & w' & h' & E & Hdw & Hdh & Hbw & Hbh & _).
      exists ow, oh, w', h'. split_all; try assumption; try reflexivity; try lia.
      intros n' [= <-] Hne. lia.
    + apply Z.eqb_neq in Hn0.
      destruct (gt_int (Float (S754_finite false Mh Eh)) n) eqn:Hgt.
      * apply gt_int_finite in Hgt.
        destruct (mul_int_float n Ma Ea ltac:(lia) HMa HEa)
          as (M & E & Hmul & Hr).
        destruct (int_of_float_finite M E) as (t & Ht & Ht0 & Htlo & _).
        rewrite Hmul. cbn [bind].
        exists (Float (S754_finite false M E)), (Int n), t, n.
        rewrite defaulted_float, defaulted_int by lia.
        pose proof (rescaled_width_le _ _ _ m n ltac:(lia) Hmh Hrh Hgt Hr)
          as Hle.
        assert (t <= m) by (apply Zle_of_Qle; lra).
        assert (n <= h) by (apply Zle_of_Qle; lra).
        split_all; try assumption; try reflexivity; try lia.
        intros n' [= <-] _. lia.
      * assert (Hle : (val Mh Eh <= inject_Z n)%Q).
        { destruct (Qlt_le_dec (inject_Z n) (val Mh Eh)) as [Hlt | Hle];
            [| exact Hle].
          apply gt_int_finite in Hlt. congruence. }
        destruct (Hkeep (fun n' => n' = n) ltac:(intros ? ->; exact Hle))
          as (ow & oh & w' & h' & E & Hdw & Hdh & Hbw & Hbh & Hbn).
        exists ow, oh, w', h'. split_all; try assumption; try reflexivity; try lia.
        intros n' [= <-] _. apply Hbn. reflexivity.
  - destruct (Hkeep (fun _ => False) ltac:(intros ? []))
      as (ow & oh & w' & h' & E & Hdw & Hdh & Hbw & Hbh & _).
    exists ow, oh, w', h'. split_all; try assumption; try reflexivity; try lia.
    intros n' [=].
Qed.

(** The size [screenshot] computes, as [compile_command] reads it: it
    does not exceed the source size, nor any bound that is given and is
    not 0. *)
Lemma screenshot_size_bounded (g : Geometry) (mw mh : option Z) :
  0 < width g < 2 ^ 53 -> 0 < height g < 2 ^ 53 ->
  (forall m, mw = Some m -> 0 <= m < 2 ^ 53) ->
  (forall n, mh = Some n -> 0 <= n < 2 ^ 53) ->
  exists ow oh w' h',
    screenshot_size g mw mh = Ok (ow, oh)
    /\ defaulted (Some ow) (width g) = Ok w'
    /\ defaulted (Some oh) (height g) = Ok h'
    /\ 0 <= w' <= width g /\ 0 <= h' <= height g
    /\ (forall m, mw = Some m -> m <> 0 -> w' <= m)
    /\ (forall n, mh = Some n -> n <> 0 -> h' <= n)
    /\ ((forall m, mw = Some m -> m = 0 \/ width g <= m) ->
        (forall n, mh = Some n -> n = 0 \/ height g <= n) ->
        w' = width g /\ h' = height g).
Proof.
  intros Hw Hh Hmw Hmh.
  assert (Hdw : 0 < Zdigits2 (width g) <= 53).
  { split; [destruct (width g); cbn; lia | apply Zdigits2_le; lia]. }
  assert (Hdh : 0 < Zdigits2 (height g) <= 53).
  { split; [destruct (height g); cbn; lia | apply Zdigits2_le; lia]. }
  destruct (int_truediv_rounds (width g) (height g) ltac:(lia) ltac:(lia)
              ltac:(lia))
    as (Ma & Ea & Ha & HMa & HEa & Hra).
  assert (HEa' : -200 <= Ea <= 200) by lia.
  unfold screenshot_size. rewrite Ha. cbn [bind].
  assert (Hints : (forall m, mw = Some m -> m <> 0 -> width g <= m) ->
            exists ow oh w' h',
              (size1 <- Ok (Int (width g), Int (height g)) ;;
               match mh with
               | Some mh0 =>
                   if negb (mh0 =? 0) && gt_int (snd size1) mh0
                   then
                     w <- mul (Int mh0) (Float (S754_finite false Ma Ea)) ;;
                     Ok (w, Int mh0)
                   else Ok size1
               | None => Ok size1
               end) = Ok (ow, oh)
              /\ defaulted (Some ow) (width g) = Ok w'
              /\ defaulted (Some oh) (height g) = Ok h'
              /\ 0 <= w' <= width g /\ 0 <= h' <= height g
              /\ (forall m, mw = Some m -> m <> 0 -> w' <= m)
              /\ (forall n, mh = Some n -> n <> 0 -> h' <= n)
              /\ ((forall m, mw = Some m -> m = 0 \/ width g <= m) ->
                  (forall n, mh = Some n -> n = 0 \/ height g <= n) ->
                  w' = width g /\ h' = height g)).
  { intros Hwide. cbn [bind].
    destruct (height_step_ints (width g) (height g) Ma Ea mh Hw Hh HMa HEa'
                Hra Hmh)
      as (ow & oh & w' & h' & E & Hdfw & Hdfh & Hbw & Hbh & Hbn & Hin).
    exists ow, oh, w', h'.
    split; [exact E |]. split; [exact Hdfw |]. split; [exact Hdfh |].
    split; [exact Hbw |]. split; [exact Hbh |]. split; [| split].
    - intros m Em Hne. specialize (Hwide m Em Hne). lia.
    - exact Hbn.
    - intros _ Hn. exact (Hin Hn). }
  destruct mw as [m |].
  - specialize (Hmw m eq_refl). cbn [gt_int].
    destruct (m =? 0) eqn:Hm0; cbn [negb andb].
    + apply Hints. intros m' [= <-] Hne. apply Z.eqb_eq in Hm0. lia.
    + apply Z.eqb_neq in Hm0. destruct (m <? width g) eqn:Hlt.
      * apply Z.ltb_lt in Hlt.
        destruct (truediv_int_float m Ma Ea ltac:(lia) HMa HEa')
          as (Mh & Eh & Hdiv & Hrh).
        rewrite Hdiv. cbn [bind].
        destruct (height_step_scaled (width g) (height g) m Ma Mh Ea Eh mh
                    Hw Hh ltac:(lia) HMa HEa' Hra Hrh Hmh)
          as (ow & oh & w' & h' & E & Hdfw & Hdfh & Hbw & Hbh & Hbn).
        exists ow, oh, w', h'. split_all; try assumption; try reflexivity; try lia.
        -- intros m' [= <-] _. lia.
        -- intros Hin _. specialize (Hin m eq_refl). exfalso. lia.
      * apply Z.ltb_ge in Hlt. apply Hints. intros m' [= <-] _. lia.
  - apply Hints. intros m' [=].
Qed.

End Screenshot.

Section LaunchersInRange.
Import Py Ffmpeg Examples.
Import Binary64.

(** X13: [screenshot] keeps to its bounds.  For a geometry with width and
    height from 1 to below [2 ^ 53] and bounds from 0 to below [2 ^ 53],
    the command is the input tokens, a stretch-to-fit filter for a size
    [ow] x [oh] unless that is the source size, and the single-image
    clause; [ow] and [oh] exceed neither the source size nor any bound
    that is given and is not 0 (a bound of 0 counts as no bound). *)
Theorem screenshot_respects_bounds (screen_id : string) (geometry : Geometry)
    (filename : string) (max_width max_height : option Z) :
  0 < width geometry < 2 ^ 53 ->
  0 < height geometry < 2 ^ 53 ->
  (forall m, max_width = Some m -> 0 <= m < 2 ^ 53) ->
  (forall n, max_height = Some n -> 0 <= n < 2 ^ 53) ->
  exists ow oh : Z,
    screenshot screen_id geometry filename max_width max_height
    = Ok (["ffmpeg"; "-loglevel"; "error"; "-f"; "x11grab";
           "-framerate"; "120";
           "-s"; (str (width geometry) ++ "x" ++ str (height geometry))%string;
           "-i"; (screen_id ++ "+" ++ str (x geometry) ++ ","
                  ++ str (y geometry))%string]
          ++ (if (ow =? width geometry) && (oh =? height geometry) then []
              else ["-vf"; ("scale=width=" ++ str ow ++ ":height="
                            ++ str oh)%string])
          ++ ["-vframes"; "1"; "-y"; filename])
    /\ 0 <= ow <= width geometry
    /\ 0 <= oh <= height geometry
    /\ (forall m, max_width = Some m -> m <> 0 -> ow <= m)
    /\ (forall n, max_height = Some n -> n <> 0 -> oh <= n).
Proof.
  intros Hw Hh Hmw Hmh.
  destruct (screenshot_size_bounded geometry max_width max_height Hw Hh Hmw Hmh)
    as (sw & sh & ow & oh & Hsize & Hdw & Hdh & Hbw & Hbh & Hbm & Hbn & _).
  exists ow, oh. split; [| split_all; try assumption; lia].
  unfold screenshot, screenshot_args. rewrite Hsize. cbn [bind fst snd].
  unfold compile_command.
  cbn [output_width output_height source_width source_height].
  rewrite Hdw, Hdh. cbn [bind]. unfold filters.
  cbn [scale maintain_aspect source_width source_height].
  unfold default_scale. cbn [negb andb].
  destruct (ow =? width geometry); destruct (oh =? height geometry);
    reflexivity.
Qed.

Lemma screenshot_respects_bounds_witness :
  exists ow oh : Z,
    screenshot ":0.0" {| x := 0; y := 0; width := 1920; height := 1080 |}
      "out.png" (Some 1280) (Some 600)
    = Ok (["ffmpeg"; "-loglevel"; "error"; "-f"; "x11grab";
           "-framerate"; "120"; "-s"; "1920x1080"; "-i"; ":0.0+0,0"]
          ++ (if (ow =? 1920) && (oh =? 1080) then []
              else ["-vf"; ("scale=width=" ++ str ow ++ ":height="
                            ++ str oh)%string])
          ++ ["-vframes"; "1"; "-y"; "out.png"])
    /\ 0 <= ow <= 1920
    /\ 0 <= oh <= 1080
    /\ (forall m, Some 1280 = Some m -> m <> 0 -> ow <= m)
    /\ (forall n, Some 600 = Some n -> n <> 0 -> oh <= n).
Proof.
  apply (screenshot_respects_bounds ":0.0"
           {| x := 0; y := 0; width := 1920; height := 1080 |}
           "out.png" (Some 1280) (Some 600)).
  - cbn [width]. lia.
  - cbn [height]. lia.
  - intros m [= <-]. lia.
  - intros n [= <-]. lia.
Defined.

Lemma bound_inactive (d m : Z) :
  m = 0 \/ d <= m -> negb (m =? 0) && gt_int (Int d) m = false.
Proof.
  intros [-> | Hle]; [reflexivity |]. cbn [gt_int].
  apply andb_false_iff. right. apply Z.ltb_ge, Hle.
Qed.

(** X14: a capture within its bounds is not filtered.  For a geometry
    with width and height from 1 to below [2 ^ 53], when each bound is
    absent, 0, or not below the dimension it bounds, the command is the
    input tokens followed directly by the single-image clause. *)
Theorem screenshot_within_bounds (screen_id : string) (geometry : Geometry)
    (filename : string) (max_width max_height : option Z) :
  0 < width geometry < 2 ^ 53 ->
  0 < height geometry < 2 ^ 53 ->
  (forall m, max_width = Some m -> m = 0 \/ width geometry <= m) ->
  (forall n, max_height = Some n -> n = 0 \/ height geometry <= n) ->
  screenshot screen_id geometry filename max_width max_height
  = Ok ["ffmpeg"; "-loglevel"; "error"; "-f"; "x11grab";
        "-framerate"; "120";
        "-s"; (str (width geometry) ++ "x" ++ str (height geometry))%string;
        "-i"; (screen_id ++ "+" ++ str (x geometry) ++ ","
               ++ str (y geometry))%string;
        "-vframes"; "1"; "-y"; filename].
Proof.
  intros Hw Hh Hmw Hmh.
  assert (Hdw : 0 < Zdigits2 (width geometry) <= 53).
  { split; [destruct (width geometry); cbn; lia | apply Zdigits2_le; lia]. }
  assert (Hdh : 0 < Zdigits2 (height geometry) <= 53).
  { split; [destruct (height geometry); cbn; lia | apply Zdigits2_le; lia]. }
  destruct (int_truediv_rounds (width geometry) (height geometry)
              ltac:(lia) ltac:(lia) ltac:(lia))
    as (Ma & Ea & Ha & _).
  assert (Hsize : screenshot_size geometry max_width max_height
                  = Ok (Int (width geometry), Int (height geometry))).
  { unfold screenshot_size. rewrite Ha. cbn [bind].
    assert (E1 : match max_width with
                 | Some mw =>
                     if negb (mw =? 0) && gt_int (Int (width geometry)) mw
                     then
                       h <- truediv (Int mw) (Float (S754_finite false Ma Ea)) ;;
                       Ok (Int mw, Float h)
                     else Ok (Int (width geometry), Int (height geometry))
                 | None => Ok (Int (width geometry), Int (height geometry))
                 end = Ok (Int (width geometry), Int (height geometry))).
    { destruct max_width as [m |]; [| reflexivity].
      rewrite (bound_inactive _ _ (Hmw m eq_refl)). reflexivity. }
    rewrite E1. cbn [bind snd].
    destruct max_height as [n |]; [| reflexivity].
    rewrite (bound_inactive _ _ (Hmh n eq_refl)). reflexivity. }
  unfold screenshot, screenshot_args. rewrite Hsize. cbn [bind fst snd].
  unfold compile_command.
  cbn [output_width output_height source_width source_height].
  rewrite !defaulted_int by lia. cbn [bind]. unfold filters.
  cbn [scale maintain_aspect source_width source_height].
  rewrite !Z.eqb_refl. reflexivity.
Qed.

Lemma screenshot_within_bounds_witness :
  screenshot ":0.0" {| x := 0; y := 0; width := 640; height := 480 |}
    "out.png" (Some 800) (Some 0)
  = Ok ["ffmpeg"; "-loglevel"; "error"; "-f"; "x11grab";
        "-framerate"; "120"; "-s"; "640x480"; "-i"; ":0.0+0,0";
        "-vframes"; "1"; "-y"; "out.png"].
Proof.
  apply (screenshot_within_bounds ":0.0"
           {| x := 0; y := 0; width := 640; height := 480 |}
           "out.png" (Some 800) (Some 0)).
  - cbn [width]. lia.
  - cbn [height]. lia.
  - intros m [= <-]. right. cbn [width]. lia.
  - intros n [= <-]. left. reflexivity.
Defined.

End LaunchersInRange.

Section StreamInRange.
Import Py Ffmpeg Examples.
Import Binary64.

Lemma round_up_even (d : Z) : 2 * ((d + 1) / 2) = d + d mod 2.
Proof.
  pose proof (Z.div_mod (d + 1) 2 ltac:(lia)).
  pose proof (Z.mod_pos_bound (d + 1) 2 ltac:(lia)).
  pose proof (Z.div_mod d 2 ltac:(lia)).
  pose proof (Z.mod_pos_bound d 2 ltac:(lia)).
  lia.
Qed.

(** The call of [compile_command] that [stream] makes, for dimensions
    from 0 to [2 ^ 53]. *)
Lemma stream_args_value (screen_id : string) (geometry : Geometry) (fps : Z)
    (filename : string) :
  0 <= width geometry <= 2 ^ 53 ->
  0 <= height geometry <= 2 ^ 53 ->
  stream_args screen_id geometry fps filename
  = Ok {| source_screen := ScreenId screen_id;
          source_x := x geometry;
          source_y := y geometry;
          source_width := width geometry;
          source_height := height geometry;
          output_filename := filename;
          output_width :=
            Some (Int (width geometry + width geometry mod 2));
          output_height :=
            Some (Int (height geometry + height geometry mod 2));
          fps := fps;
          scale := true;
          maintain_aspect := true;
          loglevel := "error" |}.
Proof.
  intros Hw Hh. unfold stream_args.
  rewrite (even_dimension_value _ Hw), (even_dimension_value _ Hh).
  rewrite !round_up_even. reflexivity.
Qed.

(** X15: the output size of a stream.  For a geometry with width and
    height from 0 to [2 ^ 53], [stream] asks [compile_command] for the
    source size with each dimension rounded up to the next even number
    (an even dimension is kept, an odd one grows by 1), at the frame rate
    given, scaling and keeping the aspect. *)
Theorem stream_output_size (screen_id : string) (geometry : Geometry)
    (fps : Z) (filename : string) :
  0 <= width geometry <= 2 ^ 53 ->
  0 <= height geometry <= 2 ^ 53 ->
  exists ow oh : Z,
    stream_args screen_id geometry fps filename
    = Ok {| source_screen := ScreenId screen_id;
            source_x := x geometry;
            source_y := y geometry;
            source_width := width geometry;
            source_height := height geometry;
            output_filename := filename;
            output_width := Some (Int ow);
            output_height := Some (Int oh);
            fps := fps;
            scale := true;
            maintain_aspect := true;
            loglevel := "error" |}
    /\ Z.even ow = true /\ width geometry <= ow < width geometry + 2
    /\ Z.even oh = true /\ height geometry <= oh < height geometry + 2.
Proof.
  intros Hw Hh.
  exists (width geometry + width geometry mod 2),
         (height geometry + height geometry mod 2).
  split; [apply stream_args_value; assumption |].
  pose proof (Z.mod_pos_bound (width geometry) 2 ltac:(lia)).
  pose proof (Z.mod_pos_bound (height geometry) 2 ltac:(lia)).
  rewrite <- !round_up_even, !Z.even_mul. cbn [Z.even orb].
  rewrite !round_up_even. split_all; try reflexivity; lia.
Qed.

Lemma stream_output_size_witness :
  exists ow oh : Z,
    stream_args ":0.0" {| x := 0; y := 0; width := 641; height := 480 |}
      30 "/dev/video0"
    = Ok {| source_screen := ScreenId ":0.0";
            source_x := 0; source_y := 0;
            source_width := 641; source_height := 480;
            output_filename := "/dev/video0";
            output_width := Some (Int ow);
            output_height := Some (Int oh);
            fps := 30;
            scale := true;
            maintain_aspect := true;
            loglevel := "error" |}
    /\ Z.even ow = true /\ 641 <= ow < 641 + 2
    /\ Z.even oh = true /\ 480 <= oh < 480 + 2.
Proof.
  apply (stream_output_size ":0.0"
           {| x := 0; y := 0; width := 641; height := 480 |}
           30 "/dev/video0"); cbn [width height]; lia.
Defined.

(** X16: a geometry with an even width and an even height, both from 2
    to [2 ^ 53], is streamed as it is: the command is the input tokens
    followed directly by the output clause, with no filter. *)
Theorem stream_even_size (screen_id : string) (geometry : Geometry)
    (fps : Z) (filename : string) :
  0 < width geometry <= 2 ^ 53 ->
  0 < height geometry <= 2 ^ 53 ->
  Z.even (width geometry) = true ->
  Z.even (height geometry) = true ->
  stream screen_id geometry fps filename
  = Ok (["ffmpeg"; "-loglevel"; "error"; "-f"; "x11grab";
         "-framerate"; str (if fps =? 0 then 120 else fps);
         "-s"; (str (width geometry) ++ "x" ++ str (height geometry))%string;
         "-i"; (screen_id ++ "+" ++ str (x geometry) ++ ","
                ++ str (y geometry))%string]
        ++ (if fps =? 0 then ["-vframes"; "1"; "-y"; filename]
            else ["-vcodec"; "rawvideo"; "-pix_fmt"; "yuv420p";
                  "-threads"; "0"; "-f"; "v4l2"; filename])).
Proof.
  intros Hw Hh Hew Heh. unfold stream.
  rewrite stream_args_value by lia. cbn [bind].
  apply Zeven_bool_iff, Zeven_ex_iff in Hew, Heh.
  assert (Ew : width geometry mod 2 = 0).
  { destruct Hew as [k ->]. rewrite Z.mul_comm. apply Z_mod_mult. }
  assert (Eh : height geometry mod 2 = 0).
  { destruct Heh as [k ->]. rewrite Z.mul_comm. apply Z_mod_mult. }
  rewrite Ew, Eh, !Z.add_0_r.
  unfold compile_command.
  cbn [output_width output_height source_width source_height].
  rewrite !defaulted_int by lia. cbn [bind]. unfold filters.
  cbn [source_width source_height]. rewrite !Z.eqb_refl. cbn [negb orb bind].
  unfold input_args, output_args, filter_args.
  cbn [Ffmpeg.fps loglevel source_width source_height source_screen source_x
       source_y output_filename screen_full_id app].
  destruct (fps =? 0); reflexivity.
Qed.

Lemma stream_even_size_witness :
  stream ":0.0" {| x := 0; y := 0; width := 640; height := 480 |}
    30 "/dev/video0"
  = Ok ["ffmpeg"; "-loglevel"; "error"; "-f"; "x11grab";
        "-framerate"; "30"; "-s"; "640x480"; "-i"; ":0.0+0,0";
        "-vcodec"; "rawvideo"; "-pix_fmt"; "yuv420p";
        "-threads"; "0"; "-f"; "v4l2"; "/dev/video0"].
Proof.
  apply (stream_even_size ":0.0"
           {| x := 0; y := 0; width := 640; height := 480 |}
           30 "/dev/video0"); cbn [width height]; first [lia | reflexivity].
Defined.

(** One more column changes the quotient, as a float too. *)
Lemma quotients_differ_width (w h : Z) (sa oa : float) :
  0 < w < 2 ^ 52 -> 0 < h < 2 ^ 53 ->
  int_truediv w h = Ok sa ->
  int_truediv (w + 1) h = Ok oa ->
  float_ne sa oa = true.
Proof.
  intros Hw Hh Hsa Hoa.
  assert (Hdw : 0 < Zdigits2 w <= 53).
  { split; [destruct w; cbn; lia | apply Zdigits2_le; lia]. }
  assert (Hdw1 : 0 < Zdigits2 (w + 1) <= 53).
  { split; [destruct (w + 1) eqn:E; cbn; lia | apply Zdigits2_le; lia]. }
  assert (Hdh : 0 < Zdigits2 h <= 53).
  { split; [destruct h; cbn; lia | apply Zdigits2_le; lia]. }
  destruct (int_truediv_rounds w h ltac:(lia) ltac:(lia) ltac:(lia))
    as (M1 & E1 & H1 & _ & _ & _ & _ & Hhi & _).
  destruct (int_truediv_rounds (w + 1) h ltac:(lia) ltac:(lia) ltac:(lia))
    as (M2 & E2 & H2 & _ & _ & _ & _ & _ & Hlo).
  rewrite H1 in Hsa. rewrite H2 in Hoa.
  injection Hsa as <-. injection Hoa as <-.
  destruct (float_ne _ _) eqn:Hne; [reflexivity | exfalso].
  apply float_ne_false in Hne. destruct Hne as [<- <-].
  assert (Hw' : w <= 2 ^ 52 - 1) by lia.
  rewrite Zle_Qle in Hw'. rewrite inject_Z_plus in Hlo.
  change (inject_Z (2 ^ 53 + 1)) with (9007199254740993 # 1)%Q in *.
  change (inject_Z (2 ^ 53 - 1)) with (9007199254740991 # 1)%Q in *.
  change (inject_Z (2 ^ 53)) with (9007199254740992 # 1)%Q in *.
  change (inject_Z (2 ^ 52 - 1)) with (4503599627370495 # 1)%Q in *.
  change (inject_Z 1) with 1%Q in *.
  generalize dependent (val M1 E1 * inject_Z h)%Q.
  generalize dependent (inject_Z w). intros. lra.
Qed.

(** One more row changes the quotient, as a float too. *)
Lemma quotients_differ_height (w h : Z) (sa oa : float) :
  0 < w < 2 ^ 53 -> 0 < h < 2 ^ 52 ->
  int_truediv w h = Ok sa ->
  int_truediv w (h + 1) = Ok oa ->
  float_ne sa oa = true.
Proof.
  intros Hw Hh Hsa Hoa.
  assert (Hdw : 0 < Zdigits2 w <= 53).
  { split; [destruct w; cbn; lia | apply Zdigits2_le; lia]. }
  assert (Hdh : 0 < Zdigits2 h <= 53).
  { split; [destruct h; cbn; lia | apply Zdigits2_le; lia]. }
  assert (Hdh1 : 0 < Zdigits2 (h + 1) <= 53).
  { split; [destruct (h + 1) eqn:E; cbn; lia | apply Zdigits2_le; lia]. }
  destruct (int_truediv_rounds w h ltac:(lia) ltac:(lia) ltac:(lia))
    as (M1 & E1 & H1 & _ & _ & _ & _ & _ & Hlo).
  destruct (int_truediv_rounds w (h + 1) ltac:(lia) ltac:(lia) ltac:(lia))
    as (M2 & E2 & H2 & _ & _ & _ & _ & Hhi & _).
  rewrite H1 in Hsa. rewrite H2 in Hoa.
  injection Hsa as <-. injection Hoa as <-.
  destruct (float_ne _ _) eqn:Hne; [reflexivity | exfalso].
  apply float_ne_false in Hne. destruct Hne as [<- <-].
  pose proof (val_pos M1 E1) as HA.
  assert (Hh' : h <= 2 ^ 52 - 1) by lia. assert (Hw' : 0 < w) by lia.
  assert (Hh0 : 0 < h) by lia.
  rewrite Zle_Qle in Hh'. rewrite Zlt_Qlt in Hw', Hh0.
  rewrite inject_Z_plus in Hhi.
  change (inject_Z (2 ^ 53 + 1)) with (9007199254740993 # 1)%Q in *.
  change (inject_Z (2 ^ 53 - 1)) with (9007199254740991 # 1)%Q in *.
  change (inject_Z (2 ^ 53)) with (9007199254740992 # 1)%Q in *.
  change (inject_Z (2 ^ 52 - 1)) with (4503599627370495 # 1)%Q in *.
  change (inject_Z 1) with 1%Q in *. change (inject_Z 0) with 0%Q in *.
  generalize dependent (val M1 E1). generalize dependent (inject_Z h).
  generalize dependent (inject_Z w). intros. nra.
Qed.

Lemma int_truediv_ok (w h : Z) :
  0 < w <= 2 ^ 53 -> 0 < h <= 2 ^ 53 -> exists q, int_truediv w h = Ok q.
Proof.
  intros Hw Hh.
  assert (Hdw : 0 < Zdigits2 w <= 54).
  { split; [destruct w; cbn; lia | apply Zdigits2_le; lia]. }
  assert (Hdh : 0 < Zdigits2 h <= 54).
  { split; [destruct h; cbn; lia | apply Zdigits2_le; lia]. }
  destruct (int_truediv_rounds w h ltac:(lia) ltac:(lia) ltac:(lia))
    as (M & E & H & _).
  eexists. exact H.
Qed.

(** X17: one odd dimension is padded.  For a geometry with width and
    height from 1 to below [2 ^ 52] of which exactly one is odd, the
    filter option of the stream is '-vf' with the centring pad filter
    alone, for the size with the odd dimension grown by 1: nothing is
    scaled. *)
Theorem stream_pads_odd_dimension (screen_id : string) (geometry : Geometry)
    (fps : Z) (filename : string) :
  0 < width geometry < 2 ^ 52 ->
  0 < height geometry < 2 ^ 52 ->
  Z.odd (width geometry) <> Z.odd (height geometry) ->
  stream screen_id geometry fps filename
  = Ok (["ffmpeg"; "-loglevel"; "error"; "-f"; "x11grab";
         "-framerate"; str (if fps =? 0 then 120 else fps);
         "-s"; (str (width geometry) ++ "x" ++ str (height geometry))%string;
         "-i"; (screen_id ++ "+" ++ str (x geometry) ++ ","
                ++ str (y geometry))%string]
        ++ ["-vf";
            ("pad=width=" ++ str (width geometry + width geometry mod 2)
             ++ ":height=" ++ str (height geometry + height geometry mod 2)
             ++ ":x=(ow-iw)/2:y=(oh-ih)/2")%string]
        ++ (if fps =? 0 then ["-vframes"; "1"; "-y"; filename]
            else ["-vcodec"; "rawvideo"; "-pix_fmt"; "yuv420p";
                  "-threads"; "0"; "-f"; "v4l2"; filename])).
Proof.
  intros Hw Hh Hodd. unfold stream.
  rewrite stream_args_value by lia. cbn [bind].
  pose proof (Z.mod_pos_bound (width geometry) 2 ltac:(lia)) as Hmw.
  pose proof (Z.mod_pos_bound (height geometry) 2 ltac:(lia)) as Hmh.
  unfold compile_command.
  cbn [output_width output_height source_width source_height].
  rewrite !defaulted_int by lia. cbn [bind]. unfold filters.
  cbn [source_width source_height scale maintain_aspect negb andb orb].
  destruct (int_truediv_ok (width geometry) (height geometry)
              ltac:(lia) ltac:(lia)) as [sa Hsa].
  destruct (int_truediv_ok (width geometry + width geometry mod 2)
              (height geometry + height geometry mod 2)
              ltac:(lia) ltac:(lia)) as [oa Hoa].
  rewrite Hsa, Hoa. cbn [bind].
  assert (Hne : float_ne sa oa = true
                /\ ((width geometry + width geometry mod 2 =? width geometry)
                    = false
                    /\ (height geometry + height geometry mod 2
                        =? height geometry) = true
                    \/ (width geometry + width geometry mod 2
                        =? width geometry) = true
                       /\ (height geometry + height geometry mod 2
                           =? height geometry) = false)).
  { rewrite !Zmod_odd in *.
    destruct (Z.odd (width geometry)); destruct (Z.odd (height geometry));
      try congruence.
    - rewrite Z.add_0_r in *. split.
      + apply (quotients_differ_width (width geometry) (height geometry));
          [lia | lia | exact Hsa | exact Hoa].
      + left. split; [apply Z.eqb_neq; lia | apply Z.eqb_refl].
    - rewrite Z.add_0_r in *. split.
      + apply (quotients_differ_height (width geometry) (height geometry));
          [lia | lia | exact Hsa | exact Hoa].
      + right. split; [apply Z.eqb_refl | apply Z.eqb_neq; lia]. }
  destruct Hne as [-> [[-> ->] | [-> ->]]]; cbn [negb andb orb app bind];
    unfold input_args, output_args, filter_args, pad_filter, join;
    cbn [Ffmpeg.fps loglevel source_width source_height source_screen
         source_x source_y output_filename screen_full_id app concat];
    destruct (fps =? 0); reflexivity.
Qed.

Lemma stream_pads_odd_dimension_witness :
  stream ":0.0" {| x := 0; y := 0; width := 641; height := 480 |}
    30 "/dev/video0"
  = Ok ["ffmpeg"; "-loglevel"; "error"; "-f"; "x11grab";
        "-framerate"; "30"; "-s"; "641x480"; "-i"; ":0.0+0,0";
        "-vf"; "pad=width=642:height=480:x=(ow-iw)/2:y=(oh-ih)/2";
        "-vcodec"; "rawvideo"; "-pix_fmt"; "yuv420p";
        "-threads"; "0"; "-f"; "v4l2"; "/dev/video0"].
Proof.
  apply (stream_pads_odd_dimension ":0.0"
           {| x := 0; y := 0; width := 641; height := 480 |}
           30 "/dev/video0"); cbn [width height];
    first [lia | discriminate].
Defined.


(** X18: two odd dimensions are scaled.  For a geometry whose width and
    height are both odd, from 1 to below [2 ^ 53], the filter option of
    the stream is '-vf' with one token: the aspect-preserving scale to
    the size grown by 1 in each direction, to which the centring pad
    filter is joined by ', ' exactly when the quotients
    [width / height] and [(width + 1) / (height + 1)] differ as floats. *)
Theorem stream_scales_odd_size (screen_id : string) (geometry : Geometry)
    (fps : Z) (filename : string) :
  0 < width geometry < 2 ^ 53 ->
  0 < height geometry < 2 ^ 53 ->
  Z.odd (width geometry) = true ->
  Z.odd (height geometry) = true ->
  exists source_aspect output_aspect,
    int_truediv (width geometry) (height geometry) = Ok source_aspect
    /\ int_truediv (width geometry + 1) (height geometry + 1)
       = Ok output_aspect
    /\ stream screen_id geometry fps filename
       = Ok (["ffmpeg"; "-loglevel"; "error"; "-f"; "x11grab";
              "-framerate"; str (if fps =? 0 then 120 else fps);
              "-s"; (str (width geometry) ++ "x"
                     ++ str (height geometry))%string;
              "-i"; (screen_id ++ "+" ++ str (x geometry) ++ ","
                     ++ str (y geometry))%string]
             ++ ["-vf";
                 if float_ne source_aspect output_aspect
                 then ("scale=width=" ++ str (width geometry + 1)
                       ++ ":height=" ++ str (height geometry + 1)
                       ++ ":force_original_aspect_ratio=decrease"
                       ++ ", "
                       ++ "pad=width=" ++ str (width geometry + 1)
                       ++ ":height=" ++ str (height geometry + 1)
                       ++ ":x=(ow-iw)/2:y=(oh-ih)/2")%string
                 else ("scale=width=" ++ str (width geometry + 1)
                       ++ ":height=" ++ str (height geometry + 1)
                       ++ ":force_original_aspect_ratio=decrease")%string]
             ++ (if fps =? 0 then ["-vframes"; "1"; "-y"; filename]
                 else ["-vcodec"; "rawvideo"; "-pix_fmt"; "yuv420p";
                       "-threads"; "0"; "-f"; "v4l2"; filename])).
Proof.
  intros Hw Hh Hwo Hho.
  destruct (int_truediv_ok (width geometry) (height geometry)
              ltac:(lia) ltac:(lia)) as [sa Hsa].
  destruct (int_truediv_ok (width geometry + 1) (height geometry + 1)
              ltac:(lia) ltac:(lia)) as [oa Hoa].
  exists sa, oa. split; [exact Hsa |]. split; [exact Hoa |].
  unfold stream. rewrite stream_args_value by lia. cbn [bind].
  rewrite !Zmod_odd, Hwo, Hho.
  unfold compile_command.
  cbn [output_width output_height source_width source_height].
  rewrite !defaulted_int by lia. cbn [bind]. unfold filters.
  cbn [source_width source_height scale maintain_aspect negb andb orb].
  rewrite Hsa, Hoa. cbn [bind].
  assert (Ew : (width geometry + 1 =? width geometry) = false)
    by (apply Z.eqb_neq; lia).
  assert (Eh : (height geometry + 1 =? height geometry) = false)
    by (apply Z.eqb_neq; lia).
  rewrite Ew, Eh. cbn [negb andb orb].
  destruct (float_ne sa oa); cbn [app bind];
    unfold input_args, output_args, filter_args, scale_filter, pad_filter,
      join;
    cbn [Ffmpeg.fps loglevel source_width source_height source_screen
         source_x source_y output_filename screen_full_id app concat];
    rewrite ?append_assoc; destruct (fps =? 0); reflexivity.
Qed.

Lemma stream_scales_odd_size_witness :
  exists source_aspect output_aspect,
    int_truediv 641 481 = Ok source_aspect
    /\ int_truediv (641 + 1) (481 + 1) = Ok output_aspect
    /\ stream ":0.0" {| x := 0; y := 0; width := 641; height := 481 |}
         30 "/dev/video0"
       = Ok (["ffmpeg"; "-loglevel"; "error"; "-f"; "x11grab";
              "-framerate"; "30"; "-s"; "641x481"; "-i"; ":0.0+0,0"]
             ++ ["-vf";
                 if float_ne source_aspect output_aspect
                 then "scale=width=642:height=482:force_original_aspect_ratio=decrease, pad=width=642:height=482:x=(ow-iw)/2:y=(oh-ih)/2"
                 else "scale=width=642:height=482:force_original_aspect_ratio=decrease"]
             ++ ["-vcodec"; "rawvideo"; "-pix_fmt"; "yuv420p";
                 "-threads"; "0"; "-f"; "v4l2"; "/dev/video0"]).
Proof.
  apply (stream_scales_odd_size ":0.0"
           {| x := 0; y := 0; width := 641; height := 481 |}
           30 "/dev/video0"); cbn [width height];
    first [lia | reflexivity].
Defined.

End StreamInRange.
